(** * Verification of [src/model/bayesian_classifier.py]

    A shallow embedding of the [BayesianClassifier] class of the
    pacbayes-opt repository and the proofs of its specification.

    Numbers.  The program computes on torch tensors and Python floats.
    Finite floating-point values are idealised as real numbers (no
    rounding, no overflow); the three non-finite values the program can
    produce without raising, [+inf], [-inf] and [nan], are kept, with
    the IEEE rules torch applies to them.  Python-level operations that
    raise ([math.log], [math.sqrt], float [/]) return in an error type.

    Integers.  A Python [int] is unbounded, a [Z]; one handed to a
    tensor method becomes a 64-bit scalar, and raises [OverflowError]
    when it does not fit.

    State.  The stochastic layers own the random generator and the
    posterior parameters: that store is an abstract world [W], threaded
    through every call of a layer.  The classifier object adds the
    [training] flag of [nn.Module]. *)

From Stdlib Require Import Reals Lra Lia ZArith String Ascii Bool List.
From Stdlib Require Import DecimalString Decimal DecimalNat.
Import ListNotations.

Open Scope R_scope.

(** ** Python exceptions and results *)

Inductive exn : Type :=
| ZeroDivisionError
| ValueError
| RuntimeError
| KeyError
| OtherError (code : nat).

Inductive result (A : Type) : Type :=
| Ok (a : A)
| Raise (e : exn).

Arguments Ok {A} a.
Arguments Raise {A} e.

Definition rbind {A B} (r : result A) (k : A -> result B) : result B :=
  match r with
  | Ok a => k a
  | Raise e => Raise e
  end.

(** [OverflowError], among the other exceptions. *)
Definition OverflowError : exn := OtherError 34.

(** ** Numbers: reals extended with the IEEE non-finite values *)

Module Num.

Inductive tnum : Type :=
| Fin (r : R)
| PInf
| NInf
| NaN.

Definition tneg (x : tnum) : tnum :=
  match x with
  | Fin r => Fin (- r)
  | PInf => NInf
  | NInf => PInf
  | NaN => NaN
  end.

Definition tadd (x y : tnum) : tnum :=
  match x, y with
  | NaN, _ | _, NaN => NaN
  | Fin a, Fin b => Fin (a + b)
  | PInf, NInf | NInf, PInf => NaN
  | PInf, _ | _, PInf => PInf
  | NInf, _ | _, NInf => NInf
  end.

Definition tsub (x y : tnum) : tnum := tadd x (tneg y).

(** Division.  Every zero divisor of this program is a positive zero
    ([math.log(1)], an [int] 0 converted to float), so [x / 0] is
    [+inf], [-inf] or [nan] by the sign of [x]. *)
Definition tdiv (x y : tnum) : tnum :=
  match x, y with
  | NaN, _ | _, NaN => NaN
  | Fin a, Fin b =>
      if Req_dec_T b 0 then
        if Req_dec_T a 0 then NaN
        else if Rlt_dec 0 a then PInf else NInf
      else Fin (a / b)
  | Fin _, (PInf | NInf) => Fin 0
  | PInf, Fin b => if Rlt_dec b 0 then NInf else PInf
  | NInf, Fin b => if Rlt_dec b 0 then PInf else NInf
  | (PInf | NInf), (PInf | NInf) => NaN
  end.

(** [Tensor.sqrt]: [nan] on a negative argument, no exception. *)
Definition tsqrt (x : tnum) : tnum :=
  match x with
  | Fin a => if Rlt_dec a 0 then NaN else Fin (sqrt a)
  | PInf => PInf
  | NInf => NaN
  | NaN => NaN
  end.

(** [Tensor.log]: [-inf] at zero, [nan] below. *)
Definition tlog (x : tnum) : tnum :=
  match x with
  | Fin a =>
      if Rlt_dec 0 a then Fin (ln a)
      else if Req_dec_T a 0 then NInf else NaN
  | PInf => PInf
  | NInf => NaN
  | NaN => NaN
  end.

(** [Tensor.pow(2)]. *)
Definition tsquare (x : tnum) : tnum :=
  match x with
  | Fin a => Fin (a * a)
  | PInf | NInf => PInf
  | NaN => NaN
  end.

(** [Tensor.clamp(min=lo, max=hi)] is [min(max(x, lo), hi)]; [nan]
    goes through. *)
Definition tclamp (lo hi : R) (x : tnum) : tnum :=
  match x with
  | Fin a => Fin (Rmin (Rmax a lo) hi)
  | PInf => Fin hi
  | NInf => Fin (Rmin lo hi)
  | NaN => NaN
  end.

(** [torch.min(a, b)], elementwise; a [nan] operand wins. *)
Definition tmin (x y : tnum) : tnum :=
  match x, y with
  | NaN, _ | _, NaN => NaN
  | Fin a, Fin b => Fin (Rmin a b)
  | NInf, _ | _, NInf => NInf
  | PInf, z | z, PInf => z
  end.

(** Sum of a list of numbers from the accumulator [0.0], left to
    right, as the [+=] loops of the program compute it. *)
Definition tsum (l : list tnum) : tnum := fold_left tadd l (Fin 0).

(** Python [a / b] on floats. *)
Definition py_truediv (a b : tnum) : result tnum :=
  match b with
  | Fin d => if Req_dec_T d 0 then Raise ZeroDivisionError else Ok (tdiv a b)
  | _ => Ok (tdiv a b)
  end.

(** [math.log] and [math.sqrt] on a finite float. *)
Definition math_log (x : R) : result R :=
  if Rlt_dec 0 x then Ok (ln x) else Raise ValueError.

Definition math_sqrt (x : R) : result R :=
  if Rlt_dec x 0 then Raise ValueError else Ok (sqrt x).

(** Python [a / b] on finite floats. *)
Definition float_div (a b : R) : result R :=
  if Req_dec_T b 0 then Raise ZeroDivisionError else Ok (a / b).

End Num.
Import Num.

(** ** The PAC-Bayes bounds (static methods) *)

(** A Python [int] given to a tensor method is turned into a 64-bit
    scalar, and one that does not fit raises [OverflowError].  The
    largest [int] accepted, [scalar_max], is a constant of the torch
    build ([2^63 - 1], or [2^64 - 1] where unsigned scalars exist);
    the smallest is [-2^63]. *)
Definition int_scalar (scalar_max v : Z) : result R :=
  if ((- 2 ^ 63 <=? v) && (v <=? scalar_max))%Z then Ok (IZR v)
  else Raise OverflowError.

Section BoundCalculator.

Variable scalar_max : Z.

(** [quad_bound(risk, kl, dataset_size, delta)].  [risk] and [kl] are
    scalar tensors, [dataset_size] is the number of examples (an
    [int]) and [delta] a float.  [2 * dataset_size] is an [int]
    product, handed to [Tensor.div]. *)
Definition quad_bound (risk kl : tnum) (dataset_size : Z) (delta : R)
  : result tnum :=
  rbind (math_sqrt (IZR dataset_size)) (fun s =>
  rbind (float_div (2 * s) delta) (fun q =>
  rbind (math_log q) (fun log_2_sqrt_n_over_delta =>
  rbind (int_scalar scalar_max (2 * dataset_size)) (fun divisor =>
  let fraction :=
    tdiv (tadd kl (Fin log_2_sqrt_n_over_delta)) (Fin divisor) in
  let sqrt1 := tsqrt (tadd risk fraction) in
  let sqrt2 := tsqrt fraction in
  Ok (tsquare (tadd sqrt1 sqrt2)))))).

(** [pinsker_bound(risk, kl, dataset_size, delta)]. *)
Definition pinsker_bound (risk kl : tnum) (dataset_size : Z) (delta : R)
  : result tnum :=
  rbind (math_sqrt (IZR dataset_size)) (fun s =>
  rbind (float_div (2 * s) delta) (fun q =>
  rbind (math_log q) (fun l =>
  rbind (int_scalar scalar_max dataset_size) (fun divisor =>
  let B := tdiv (tadd kl (Fin l)) (Fin divisor) in
  Ok (tadd risk (tsqrt (tdiv B (Fin 2)))))))).

(** [inverted_kl_bound(risk, kl, dataset_size, delta)]: the arguments
    of [torch.min] are evaluated left to right. *)
Definition inverted_kl_bound (risk kl : tnum) (dataset_size : Z) (delta : R)
  : result tnum :=
  rbind (quad_bound risk kl dataset_size delta) (fun q =>
  rbind (pinsker_bound risk kl dataset_size delta) (fun p =>
  Ok (tmin q p))).

End BoundCalculator.

(** The bounds as the specification words them, on real numbers. *)
Definition log_term (dataset_size delta : R) : R :=
  ln (2 * sqrt dataset_size / delta).

Definition quad_bound_spec (risk kl dataset_size delta : R) : R :=
  let c := (kl + log_term dataset_size delta) / (2 * dataset_size) in
  (sqrt (risk + c) + sqrt c) ^ 2.

Definition pinsker_bound_spec (risk kl dataset_size delta : R) : R :=
  let B := (kl + log_term dataset_size delta) / dataset_size in
  risk + sqrt (B / 2).

Definition inverted_kl_bound_spec (risk kl n delta : R) : R :=
  Rmin (quad_bound_spec risk kl n delta) (pinsker_bound_spec risk kl n delta).

(** The complexity term shared by the two bounds. *)
Definition complexity (kl : R) (n : Z) (delta : R) : R :=
  kl + log_term (IZR n) delta.

(** ** Tensors and the surrogate loss *)

(** A 2-D tensor: its trailing dimension and its rows.  The inputs of
    the layers are taken flattened to this form. *)
Record tensor : Type := mkTensor {
  shape1 : nat;
  data : list (list tnum)
}.

Definition elements (t : tensor) : list tnum := concat (data t).

(** [Tensor.sum()] and [Tensor.mean()] over all elements; the mean of
    an empty tensor is [nan]. *)
Definition tensor_sum (t : tensor) : tnum := tsum (elements t).

Definition tensor_mean (t : tensor) : tnum :=
  tdiv (tsum (elements t)) (Fin (INR (length (elements t)))).

Fixpoint mapR {A B} (f : A -> result B) (l : list A) : result (list B) :=
  match l with
  | [] => Ok []
  | a :: l' =>
      rbind (f a) (fun b => rbind (mapR f l') (fun bs => Ok (b :: bs)))
  end.

(** [y.view([y.shape[0], -1])] on a label vector of shape (batch,):
    one column of indices; with no element the [-1] dimension is
    ambiguous and torch raises. *)
Definition view_column (y : list Z) : result (list (list Z)) :=
  match y with
  | [] => Raise RuntimeError
  | _ => Ok (map (fun label => [label]) y)
  end.

(** [probs.gather(1, index)]: [out[i][j] = probs[i][index[i][j]]]; an
    index outside the row, or more index rows than rows, raises. *)
Definition gather_one (row : list tnum) (j : Z) : result tnum :=
  if (j <? 0)%Z then Raise RuntimeError
  else match nth_error row (Z.to_nat j) with
       | Some v => Ok v
       | None => Raise RuntimeError
       end.

Fixpoint gather (rows : list (list tnum)) (index : list (list Z))
  : result (list (list tnum)) :=
  match index, rows with
  | [], _ => Ok []
  | _ :: _, [] => Raise RuntimeError
  | i :: index', row :: rows' =>
      rbind (mapR (gather_one row) i) (fun g =>
      rbind (gather rows' index') (fun gs => Ok (g :: gs)))
  end.

(** [BayesianClassifier.surrogate] (static). *)
Definition surrogate (probs : tensor) (y : list Z) (prob_threshold : R)
    (normalize_surrogate_by_log_classes : bool) : result tensor :=
  rbind (view_column y) (fun y =>
  rbind (gather (data probs) y) (fun g =>
  let log_likelihood :=
    map (map (fun p => tlog (tclamp prob_threshold 1 p))) g in
  let surrogate := map (map tneg) log_likelihood in
  if normalize_surrogate_by_log_classes then
    let n_classes := shape1 probs in
    rbind (math_log (INR n_classes)) (fun d =>
    Ok (mkTensor 1 (map (map (fun s => tdiv s (Fin d))) surrogate)))
  else Ok (mkTensor 1 surrogate))).

(** The surrogate of one example as the specification words it: the
    negated log of the true-class probability clamped into
    [[prob_threshold, 1]], over [log(num_classes)] when normalised. *)
Definition clamp_prob (t p : R) : R := Rmin (Rmax p t) 1.

Definition surrogate_spec (t : R) (norm : bool) (n_classes : nat) (p : R) : R :=
  if norm then - ln (clamp_prob t p) / ln (INR n_classes)
  else - ln (clamp_prob t p).

(** The largest value of the surrogate, reached when the clamp
    engages. *)
Definition surrogate_cap (t : R) (norm : bool) (n_classes : nat) : R :=
  if norm then - ln t / ln (INR n_classes) else - ln t.

(** The loss of an example with one class and normalisation, where
    the divisor is [log(1) = 0]: by the clamped probability [c], [nan]
    below 0 (the log of a negative number), [+inf] from 0 to 1 (a
    positive number over 0) and [nan] at 1 (0 over 0). *)
Definition single_class_loss (t p : R) : tnum :=
  if Rlt_dec (clamp_prob t p) 0 then NaN
  else if Rlt_dec (clamp_prob t p) 1 then PInf else NaN.

(** The true-class probability of every example. *)
Definition true_class_probs (probs : list (list R)) (y : list Z) : list R :=
  map (fun '(row, label) => nth (Z.to_nat label) row 0) (combine probs y).

(** A vector as a tensor of shape (batch, 1). *)
Definition column (v : list R) : tensor :=
  mkTensor 1 (map (fun a => [Fin a]) v).

Definition real_tensor (n_classes : nat) (rows : list (list R)) : tensor :=
  mkTensor n_classes (map (map Fin) rows).

(** Label [l] is a class index of a row of [n] probabilities. *)
Definition valid_label (n : nat) (l : Z) : Prop := (0 <= l < Z.of_nat n)%Z.

(** ** Module trees: [add_module] and [named_modules] of [nn.Module] *)

(** An [nn.Module] object: its identity and its registered children,
    in registration order. *)
#[warnings="-register-all"] Inductive nn_module : Type :=
| MkModule (uid : nat) (children : list (string * nn_module)).

Definition uid (m : nn_module) : nat :=
  match m with MkModule u _ => u end.

Definition children (m : nn_module) : list (string * nn_module) :=
  match m with MkModule _ c => c end.

(** [pat in s] on strings. *)
Fixpoint contains (pat s : string) : bool :=
  if String.prefix pat s then true
  else match s with
       | EmptyString => false
       | String _ s' => contains pat s'
       end.

(** [d[name] = m] on an insertion-ordered dict. *)
Fixpoint dict_set {A} (d : list (string * A)) (name : string) (m : A)
  : list (string * A) :=
  match d with
  | [] => [(name, m)]
  | (k, v) :: d' =>
      if String.eqb k name then (k, m) :: d' else (k, v) :: dict_set d' name m
  end.

(** [Module.add_module(name, module)]: a name with a dot and the empty
    name raise [KeyError].  (The third [KeyError], a name that is
    already an attribute and not a registered module, cannot fire on
    the names [bayesian_layer<i>] of a fresh classifier.) *)
Definition add_module (mods : list (string * nn_module)) (name : string)
    (m : nn_module) : result (list (string * nn_module)) :=
  if contains "." name then Raise KeyError
  else if String.eqb name "" then Raise KeyError
  else Ok (dict_set mods name m).

(** [Module.named_modules(memo, prefix)]: the module itself, then its
    children depth first; an object already in [memo] is skipped with
    its whole subtree. *)
Fixpoint named_modules (m : nn_module) (memo : list nat) (prefix : string)
    {struct m} : list (string * nn_module) * list nat :=
  match m with
  | MkModule u kids =>
      if existsb (Nat.eqb u) memo then ([], memo)
      else
        let fix over_children (ks : list (string * nn_module))
                (memo : list nat) {struct ks} :=
          match ks with
          | [] => ([], memo)
          | (name, k) :: ks' =>
              let submodule_prefix :=
                (prefix ++ (if String.eqb prefix "" then "" else ".")
                        ++ name)%string in
              let '(r1, memo1) := named_modules k memo submodule_prefix in
              let '(r2, memo2) := over_children ks' memo1 in
              (r1 ++ r2, memo2)
          end in
        let '(r, memo') := over_children kids (u :: memo) in
        ((prefix, m) :: r, memo')
  end.

(** The loop over [self._modules] inside [named_modules], on its own. *)
Fixpoint named_children (prefix : string) (ks : list (string * nn_module))
    (memo : list nat) {struct ks} : list (string * nn_module) * list nat :=
  match ks with
  | [] => ([], memo)
  | (name, k) :: ks' =>
      let submodule_prefix :=
        (prefix ++ (if String.eqb prefix "" then "" else ".") ++ name)%string in
      let '(r1, memo1) := named_modules k memo submodule_prefix in
      let '(r2, memo2) := named_children prefix ks' memo1 in
      (r1 ++ r2, memo2)
  end.

Definition is_leaf (m : nn_module) : Prop := children m = [].

(** [str(i)] for a non-negative [int]. *)
Definition decimal (i : nat) : string :=
  NilEmpty.string_of_uint (Nat.to_uint i).

Definition layer_name (i_layer : nat) : string :=
  ("bayesian_layer" ++ decimal i_layer)%string.

(** The registration loop of [__init__], from index [i_layer] on. *)
Fixpoint register_layers (i_layer : nat) (layers : list nn_module)
    (mods : list (string * nn_module)) : result (list (string * nn_module)) :=
  match layers with
  | [] => Ok mods
  | layer :: rest =>
      rbind (add_module mods (layer_name i_layer) layer) (fun mods' =>
      register_layers (S i_layer) rest mods')
  end.

(** The names the registration loop gives, from index [i_layer] on. *)
Fixpoint enumerate_named (i_layer : nat) (layers : list nn_module)
  : list (string * nn_module) :=
  match layers with
  | [] => []
  | layer :: rest =>
      (layer_name i_layer, layer) :: enumerate_named (S i_layer) rest
  end.

(** The list comprehension of [__init__] over [self.named_modules()]. *)
Definition recover_layers (self : nn_module) : list nn_module :=
  map snd (filter (fun nm => contains "bayesian_layer" (fst nm))
                  (fst (named_modules self [] ""))).

(** ** The classifier *)

(** The attributes [__init__] sets. *)
Record classifier : Type := mkClassifier {
  self_module : nn_module;
  bayesian_layers : list nn_module;
  prob_threshold : R;
  normalize_surrogate_by_log_classes : bool;
  oracle_prior_variance : bool
}.

(** [__init__], on the freshly allocated object [self_id]. *)
Definition __init__ (self_id : nat) (layers : list nn_module)
    (prob_threshold : R) (normalize_surrogate_by_log_classes : bool)
    (oracle_prior_variance : bool) : result classifier :=
  rbind (register_layers 0 layers []) (fun mods =>
  let self := MkModule self_id mods in
  Ok (mkClassifier self (recover_layers self) prob_threshold
        normalize_surrogate_by_log_classes oracle_prior_variance)).

(** A data loader: the batches it yields, until it is exhausted or its
    iteration raises. *)
Inductive loader : Type :=
| Exhausted
| Yield (x : tensor) (y : list Z) (rest : loader)
| Fails (e : exn).

Fixpoint loader_of (batches : list (tensor * list Z)) : loader :=
  match batches with
  | [] => Exhausted
  | (x, y) :: rest => Yield x y (loader_of rest)
  end.

Section Classifier.

(** The store of the layer stack: random generator and posterior
    parameters. *)
Variable W : Type.

(** The methods of the layer objects, by object identity: [layer(x,
    mode)], [layer.kl()] and [layer.kl_oracle_prior_variance()].  They
    belong to [bayesian_layers.py]. *)
Variable layer_forward : nat -> tensor -> string -> W -> result tensor * W.
Variable layer_kl : nat -> W -> result tnum * W.
Variable layer_kl_oracle_prior_variance : nat -> W -> result tnum * W.

(** [Classifier.evaluate(probs, y)], of [classifier.py]: the counts of
    correct predictions and of examples, read with [.item()]. *)
Variable Classifier_evaluate : tensor -> list Z -> result (tnum * tnum).

(** What [Module.train(mode)] does below the classifier: it sets the
    mode flag of every registered child module, which lives in the
    layers' store. *)
Variable layers_train : bool -> W -> W.

(** The mutable state: the [training] flag of the classifier and the
    store of the layers. *)
Record heap : Type := mkHeap {
  training : bool;
  world : W
}.

(** State and exceptions: a computation returns or raises, and leaves
    a heap either way. *)
Definition M (A : Type) : Type := heap -> result A * heap.

Definition ret {A} (a : A) : M A := fun h => (Ok a, h).

Definition raise {A} (e : exn) : M A := fun h => (Raise e, h).

Definition bind {A B} (c : M A) (k : A -> M B) : M B :=
  fun h => match c h with
           | (Ok a, h') => k a h'
           | (Raise e, h') => (Raise e, h')
           end.

Definition lift_result {A} (r : result A) : M A := fun h => (r, h).

(** A method of a layer that leaves the store as it found it. *)
Definition reads_only {A} (f : W -> result A * W) : Prop :=
  forall w, snd (f w) = w.

Definition lift_world {A} (f : W -> result A * W) : M A :=
  fun h => let '(r, w) := f (world h) in (r, mkHeap (training h) w).

Definition get_training : M bool := fun h => (Ok (training h), h).

(** [self.train(mode=b)]; [self.eval()] is [self.train(False)]. *)
Definition set_training (b : bool) : M unit :=
  fun h => (Ok tt, mkHeap b (layers_train b (world h))).

Notation "x <- c ;; k" := (bind c (fun x => k))
  (at level 61, c at next level, right associativity).
Notation "' pat <- c ;; k" := (bind c (fun x => match x with pat => k end))
  (at level 61, pat pattern, c at next level, right associativity).

(** [forward(x, mode)]. *)
Fixpoint forward_layers (layers : list nn_module) (x : tensor) (mode : string)
  : M tensor :=
  match layers with
  | [] => ret x
  | layer :: rest =>
      x' <- lift_world (layer_forward (uid layer) x mode) ;;
      forward_layers rest x' mode
  end.

Definition forward (self : classifier) (x : tensor) (mode : string)
  : M tensor :=
  forward_layers (bayesian_layers self) x mode.

(** [kl()]: the loop over the layers, from the accumulator [net_kl]. *)
Definition layer_kl_call (oracle : bool) (layer : nn_module) : M tnum :=
  if oracle then lift_world (layer_kl_oracle_prior_variance (uid layer))
  else lift_world (layer_kl (uid layer)).

Fixpoint kl_loop (oracle : bool) (layers : list nn_module) (net_kl : tnum)
  : M tnum :=
  match layers with
  | [] => ret net_kl
  | layer :: rest =>
      v <- layer_kl_call oracle layer ;;
      kl_loop oracle rest (tadd net_kl v)
  end.

Definition kl (self : classifier) : M tnum :=
  kl_loop (oracle_prior_variance self) (bayesian_layers self) (Fin 0).

(** [forward_train(x, y, n_samples)]: [range(n_samples)] has
    [n_samples] elements, none when [n_samples <= 0]; with no pass the
    accumulators are still the Python floats [0.0], whose division by
    an [int] zero raises. *)
Fixpoint forward_train_loop (self : classifier) (x : tensor) (y : list Z)
    (passes : nat) (running_kl running_surrogate : tnum) : M (tnum * tnum) :=
  match passes with
  | O => ret (running_kl, running_surrogate)
  | S passes' =>
      probs <- forward self x "MC" ;;
      kl <- kl self ;;
      s <- lift_result (surrogate probs y (prob_threshold self)
                          (normalize_surrogate_by_log_classes self)) ;;
      let surrogate := tensor_mean s in
      forward_train_loop self x y passes'
        (tadd running_kl kl) (tadd running_surrogate surrogate)
  end.

Definition forward_train (self : classifier) (x : tensor) (y : list Z)
    (n_samples : Z) : M (tnum * tnum) :=
  ' (running_kl, running_surrogate) <-
      forward_train_loop self x y (Z.to_nat n_samples) (Fin 0) (Fin 0) ;;
  mean_kl <- lift_result (py_truediv running_kl (Fin (IZR n_samples))) ;;
  mean_surrogate <-
    lift_result (py_truediv running_surrogate (Fin (IZR n_samples))) ;;
  ret (mean_kl, mean_surrogate).

(** [evaluate_on_loader(loader)].  [x.to(device)] and [y.to(device)]
    return the same values; [torch.no_grad()] only turns gradient
    tracking off. *)
Fixpoint evaluate_loop (self : classifier) (l : loader)
    (corrects totals surrogates : tnum) : M (tnum * tnum * tnum) :=
  match l with
  | Exhausted => ret (corrects, totals, surrogates)
  | Fails e => raise e
  | Yield x y rest =>
      probs <- forward self x "MC" ;;
      ' (correct, total) <- lift_result (Classifier_evaluate probs y) ;;
      surrogate_batch <-
        lift_result (surrogate probs y (prob_threshold self)
                       (normalize_surrogate_by_log_classes self)) ;;
      evaluate_loop self rest (tadd corrects correct) (tadd totals total)
        (tadd surrogates (tensor_sum surrogate_batch))
  end.

Definition evaluate_on_loader (self : classifier) (l : loader)
  : M (tnum * tnum) :=
  training <- get_training ;;
  _ <- set_training false ;;
  ' (corrects, totals, surrogates) <-
      evaluate_loop self l (Fin 0) (Fin 0) (Fin 0) ;;
  ratio <- lift_result (py_truediv corrects totals) ;;
  let error := tsub (Fin 1) ratio in
  surrogate <- lift_result (py_truediv surrogates totals) ;;
  _ <- set_training training ;;
  ret (error, surrogate).

(** *** The same computations, as the specification words them *)

(** Run [c] on every element, in order, and collect the results. *)
Fixpoint mapM {A B} (c : A -> M B) (l : list A) : M (list B) :=
  match l with
  | [] => ret []
  | a :: l' => b <- c a ;; bs <- mapM c l' ;; ret (b :: bs)
  end.

(** The sum of a list of numbers, as the mathematical sum of its
    terms, and their arithmetic mean. *)
Definition total (vs : list tnum) : tnum := fold_right tadd (Fin 0) vs.

Definition arithmetic_mean (vs : list tnum) : tnum :=
  tdiv (total vs) (Fin (INR (length vs))).

(** The same on real numbers. *)
Definition real_total (vs : list R) : R := fold_right Rplus 0 vs.

(** One method called on every layer of a list, in order, each layer
    once: the values returned and the store left behind. *)
Inductive layer_calls (method : nat -> W -> result tnum * W)
  : list nn_module -> W -> list tnum -> W -> Prop :=
| layer_calls_nil (w : W) : layer_calls method [] w [] w
| layer_calls_cons (layer : nn_module) (layers : list nn_module)
    (w w1 w' : W) (v : tnum) (vs : list tnum) :
    method (uid layer) w = (Ok v, w1) ->
    layer_calls method layers w1 vs w' ->
    layer_calls method (layer :: layers) w (v :: vs) w'.

(** The same calls, the last of which raises. *)
Inductive layer_calls_raise (method : nat -> W -> result tnum * W)
  : list nn_module -> W -> exn -> W -> Prop :=
| layer_calls_raise_here (layer : nn_module) (layers : list nn_module)
    (w w' : W) (e : exn) :
    method (uid layer) w = (Raise e, w') ->
    layer_calls_raise method (layer :: layers) w e w'
| layer_calls_raise_later (layer : nn_module) (layers : list nn_module)
    (w w1 w' : W) (v : tnum) (e : exn) :
    method (uid layer) w = (Ok v, w1) ->
    layer_calls_raise method layers w1 e w' ->
    layer_calls_raise method (layer :: layers) w e w'.

(** [n] Monte Carlo passes of training from a heap, each one ['MC']
    forward, one [kl()] and one surrogate on the probabilities of
    that forward: the KL values, the per-example surrogate tensors and
    the heap left behind. *)
Inductive passes_run (self : classifier) (x : tensor) (y : list Z)
  : nat -> heap -> list tnum -> list tensor -> heap -> Prop :=
| passes_run_none (h : heap) : passes_run self x y 0 h [] [] h
| passes_run_more (n : nat) (h h1 h2 h' : heap) (probs s : tensor)
    (k : tnum) (ks : list tnum) (ss : list tensor) :
    forward self x "MC" h = (Ok probs, h1) ->
    kl self h1 = (Ok k, h2) ->
    surrogate probs y (prob_threshold self)
      (normalize_surrogate_by_log_classes self) = Ok s ->
    passes_run self x y n h2 ks ss h' ->
    passes_run self x y (S n) h (k :: ks) (s :: ss) h'.

(** The batches of an evaluation from a heap, each one ['MC'] forward,
    one call of the metrics helper and one surrogate: the correct
    counts, the total counts, the per-example surrogate tensors and
    the heap left behind. *)
Inductive batches_run (self : classifier)
  : list (tensor * list Z) -> heap -> list tnum -> list tnum ->
    list tensor -> heap -> Prop :=
| batches_run_none (h : heap) : batches_run self [] h [] [] [] h
| batches_run_more (x : tensor) (y : list Z)
    (batches : list (tensor * list Z)) (h h1 h' : heap) (probs s : tensor)
    (correct total_ : tnum) (corrects totals : list tnum)
    (ss : list tensor) :
    forward self x "MC" h = (Ok probs, h1) ->
    Classifier_evaluate probs y = Ok (correct, total_) ->
    surrogate probs y (prob_threshold self)
      (normalize_surrogate_by_log_classes self) = Ok s ->
    batches_run self batches h1 corrects totals ss h' ->
    batches_run self ((x, y) :: batches) h
      (correct :: corrects) (total_ :: totals) (s :: ss) h'.

(** One Monte Carlo pass of training: one ['MC'] forward, one [kl()]
    and the batch mean of one surrogate. *)
Definition mc_pass (self : classifier) (x : tensor) (y : list Z)
  : M (tnum * tnum) :=
  probs <- forward self x "MC" ;;
  k <- kl self ;;
  s <- lift_result (surrogate probs y (prob_threshold self)
                      (normalize_surrogate_by_log_classes self)) ;;
  ret (k, tensor_mean s).

(** The statistics of one evaluation batch: correct count, total
    count and summed surrogate. *)
Record batch_stats : Type := mkStats {
  correct_count : tnum;
  total_count : tnum;
  surrogate_sum : tnum
}.

Definition eval_batch (self : classifier) (batch : tensor * list Z)
  : M batch_stats :=
  let '(x, y) := batch in
  probs <- forward self x "MC" ;;
  ' (correct, total) <- lift_result (Classifier_evaluate probs y) ;;
  surrogate_batch <-
    lift_result (surrogate probs y (prob_threshold self)
                   (normalize_surrogate_by_log_classes self)) ;;
  ret (mkStats correct total (tensor_sum surrogate_batch)).

Definition eval_batches (self : classifier) (batches : list (tensor * list Z))
  : M (list batch_stats) :=
  mapM (eval_batch self) batches.

End Classifier.

Arguments mkHeap {W} training world.
Arguments training {W} h.
Arguments world {W} h.
Arguments ret {W A} a h.
Arguments raise {W A} e h.
Arguments bind {W A B} c k h.
Arguments lift_result {W A} r h.
Arguments lift_world {W A} f h.
Arguments reads_only {W A} f.
Arguments get_training {W} h.
Arguments set_training {W} layers_train b h.
Arguments mapM {W A B} c l h.
Arguments forward_layers {W} layer_forward layers x mode h.
Arguments forward {W} layer_forward self x mode h.
Arguments layer_kl_call {W} layer_kl layer_kl_oracle_prior_variance
  oracle layer h.
Arguments kl_loop {W} layer_kl layer_kl_oracle_prior_variance
  oracle layers net_kl h.
Arguments kl {W} layer_kl layer_kl_oracle_prior_variance self h.
Arguments forward_train_loop {W} layer_forward layer_kl
  layer_kl_oracle_prior_variance self x y passes running_kl running_surrogate h.
Arguments forward_train {W} layer_forward layer_kl
  layer_kl_oracle_prior_variance self x y n_samples h.
Arguments mc_pass {W} layer_forward layer_kl
  layer_kl_oracle_prior_variance self x y h.
Arguments layer_calls {W} method layers w values w'.
Arguments layer_calls_raise {W} method layers w e w'.
Arguments passes_run {W} layer_forward layer_kl
  layer_kl_oracle_prior_variance self x y n h kls surrogates h'.
Arguments batches_run {W} layer_forward Classifier_evaluate self batches h
  corrects totals surrogates h'.
Arguments evaluate_loop {W} layer_forward Classifier_evaluate self l
  corrects totals surrogates h.
Arguments evaluate_on_loader {W} layer_forward Classifier_evaluate layers_train
  self l h.
Arguments eval_batch {W} layer_forward Classifier_evaluate self batch h.
Arguments eval_batches {W} layer_forward Classifier_evaluate self batches h.

(** ** A concrete layer stack, for the runs at explicit inputs

    The store is the number of random draws made so far; a layer
    forwards its input unchanged and draws once; the metrics helper
    counts every example as correct; [train(mode)] leaves the store
    as it is. *)
Definition counting_forward (layer : nat) (x : tensor) (mode : string)
    (draws : nat) : result tensor * nat :=
  (Ok x, S draws).

Definition unit_kl (layer : nat) (draws : nat) : result tnum * nat :=
  (Ok (Fin 1), draws).

Definition double_kl (layer : nat) (draws : nat) : result tnum * nat :=
  (Ok (Fin 2), draws).

Definition keep_store (mode : bool) (draws : nat) : nat := draws.

Definition all_correct (probs : tensor) (y : list Z) : result (tnum * tnum) :=
  Ok (Fin (INR (length y)), Fin (INR (length y))).

Definition sample_probs : tensor := real_tensor 2 [[1 / 4; 3 / 4]].

Definition sample_labels : list Z := [1%Z].

Definition sample_classifier : classifier :=
  mkClassifier (MkModule 0 [("bayesian_layer0"%string, MkModule 1 [])])
    [MkModule 1 []] (1 / 2) false false.

(** A KL that reads the store: the number of draws made so far. *)
Definition draws_kl (layer : nat) (draws : nat) : result tnum * nat :=
  (Ok (Fin (INR draws)), draws).

(** A KL that tells the layers apart: the identity of the layer. *)
Definition uid_kl (layer : nat) (draws : nat) : result tnum * nat :=
  (Ok (Fin (INR layer)), draws).

Definition pair_classifier : classifier :=
  mkClassifier
    (MkModule 0 [("bayesian_layer0"%string, MkModule 1 []);
                 ("bayesian_layer1"%string, MkModule 2 [])])
    [MkModule 1 []; MkModule 2 []] (1 / 2) false false.

Definition sample_surrogate : list R :=
  map (surrogate_spec (1 / 2) false 2)
      (true_class_probs [[1 / 4; 3 / 4]] sample_labels).

(** ** Further definitions, for the properties beyond the claims *)

(** Every row has the trailing dimension of the tensor. *)
Definition well_shaped (t : tensor) : Prop :=
  Forall (fun row => length row = shape1 t) (data t).

(** The entry of every example at its label, whatever the entries
    are. *)
Definition true_class_entries (rows : list (list tnum)) (y : list Z)
  : list tnum :=
  map (fun '(row, label) => nth (Z.to_nat label) row NaN) (combine rows y).

(** What [surrogate] makes of one gathered entry. *)
Definition surrogate_entry (t : R) (norm : bool) (n_classes : nat) (v : tnum)
  : tnum :=
  let s := tneg (tlog (tclamp t 1 v)) in
  if norm then tdiv s (Fin (ln (INR n_classes))) else s.

(** The objects a list of named modules holds. *)
Definition uids (r : list (string * nn_module)) : list nat :=
  map (fun kv => uid (snd kv)) r.

(** [math.exp] is the one float operation of the file whose overflow
    raises instead of giving [inf]: [OverflowError: math range error],
    as soon as the result exceeds the largest float, [float_max]. *)
Definition math_exp (float_max : R) (x : R) : result R :=
  if Rlt_dec float_max (exp x) then Raise OverflowError else Ok (exp x).

(** [softplus = lambda x: math.log(1 + math.exp(x))]. *)
Definition softplus (float_max : R) (x : R) : result R :=
  rbind (math_exp float_max x) (fun e => math_log (1 + e)).

(** The Python prefix of both bounds,
    [math.log(2 * math.sqrt(dataset_size) / delta)]. *)
Definition log_prefix (n : Z) (delta : R) : result R :=
  rbind (math_sqrt (IZR n)) (fun s =>
  rbind (float_div (2 * s) delta) (fun q => math_log q)).

(** The exception the prefix raises outside the domain. *)
Definition domain_error (n : Z) (delta : R) : exn :=
  if (n <? 0)%Z then ValueError
  else if Req_dec_T delta 0 then ZeroDivisionError else ValueError.

(** What one call of [named_modules] from the visited set [memo]
    guarantees of what it yields, [r], and of the visited set it
    leaves, [memo']: the objects yielded are distinct and were not
    visited, and the visited set grows by exactly them. *)
Definition fresh_walk (memo : list nat)
    (out : list (string * nn_module) * list nat) : Prop :=
  NoDup (uids (fst out))
  /\ (forall u, In u (uids (fst out)) -> ~ In u memo)
  /\ (forall u, In u (snd out) <-> In u (uids (fst out)) \/ In u memo).

(** The name test of the list comprehension of [__init__]. *)
Definition has_marker (name : string) : bool :=
  contains "bayesian_layer" name.

(** A loader that yields [batches] and then goes on as [rest]. *)
Fixpoint loader_then (batches : list (tensor * list Z)) (rest : loader)
  : loader :=
  match batches with
  | [] => rest
  | (x, y) :: batches' => Yield x y (loader_then batches' rest)
  end.

(** * Proofs *)

(** ** The numeric kernel on finite values *)

Lemma math_sqrt_ok (x : R) : 0 <= x -> math_sqrt x = Ok (sqrt x).
Proof.
  intros Hx. unfold math_sqrt. destruct (Rlt_dec x 0); [lra | reflexivity].
Qed.

Lemma math_log_ok (x : R) : 0 < x -> math_log x = Ok (ln x).
Proof.
  intros Hx. unfold math_log. destruct (Rlt_dec 0 x); [reflexivity | lra].
Qed.

Lemma float_div_ok (a b : R) : b <> 0 -> float_div a b = Ok (a / b).
Proof.
  intros Hb. unfold float_div. destruct (Req_dec_T b 0); [lra | reflexivity].
Qed.

Lemma tdiv_fin (a b : R) : b <> 0 -> tdiv (Fin a) (Fin b) = Fin (a / b).
Proof.
  intros Hb. simpl. destruct (Req_dec_T b 0); [lra | reflexivity].
Qed.

Lemma tdiv_pos_zero (a : R) : 0 < a -> tdiv (Fin a) (Fin 0) = PInf.
Proof.
  intros Ha. simpl. destruct (Req_dec_T 0 0); [ | lra].
  destruct (Req_dec_T a 0); [lra | ].
  destruct (Rlt_dec 0 a); [reflexivity | lra].
Qed.

Lemma tdiv_zero_zero : tdiv (Fin 0) (Fin 0) = NaN.
Proof.
  simpl. destruct (Req_dec_T 0 0); [ | lra]. reflexivity.
Qed.

Lemma tsqrt_fin (a : R) : 0 <= a -> tsqrt (Fin a) = Fin (sqrt a).
Proof.
  intros Ha. simpl. destruct (Rlt_dec a 0); [lra | reflexivity].
Qed.

Lemma tlog_fin (a : R) : 0 < a -> tlog (Fin a) = Fin (ln a).
Proof.
  intros Ha. simpl. destruct (Rlt_dec 0 a); [reflexivity | lra].
Qed.

Lemma py_truediv_fin (a : tnum) (d : R) :
  d <> 0 -> py_truediv a (Fin d) = Ok (tdiv a (Fin d)).
Proof.
  intros Hd. unfold py_truediv. destruct (Req_dec_T d 0); [lra | reflexivity].
Qed.

Lemma py_truediv_zero (a : tnum) :
  py_truediv a (Fin 0) = Raise ZeroDivisionError.
Proof.
  unfold py_truediv. destruct (Req_dec_T 0 0); [reflexivity | lra].
Qed.

Lemma ln_le_mono (x y : R) : 0 < x -> x <= y -> ln x <= ln y.
Proof.
  intros Hx [Hlt | Heq].
  - left. now apply ln_increasing.
  - subst. lra.
Qed.

Lemma ln_pos (x : R) : 1 < x -> 0 < ln x.
Proof.
  intros Hx. rewrite <- ln_1. apply ln_increasing; lra.
Qed.

Lemma ln_neg (x : R) : 0 < x -> x < 1 -> ln x < 0.
Proof.
  intros H0 H1. rewrite <- ln_1. now apply ln_increasing.
Qed.

Lemma tadd_0_l (x : tnum) : tadd (Fin 0) x = x.
Proof.
  destruct x; cbn [tadd]; try reflexivity. now rewrite Rplus_0_l.
Qed.

Lemma tadd_0_r (x : tnum) : tadd x (Fin 0) = x.
Proof.
  destruct x; cbn [tadd]; try reflexivity. now rewrite Rplus_0_r.
Qed.

Lemma tadd_assoc (x y z : tnum) : tadd x (tadd y z) = tadd (tadd x y) z.
Proof.
  destruct x, y, z; cbn [tadd]; try reflexivity. now rewrite Rplus_assoc.
Qed.

(** The [+=] loops add from the left; the sum is the same. *)
Lemma fold_left_tadd_total (l : list tnum) :
  forall a, fold_left tadd l a = tadd a (total l).
Proof.
  unfold total.
  induction l as [ | v l IH]; intros a; cbn [fold_left fold_right].
  - now rewrite tadd_0_r.
  - now rewrite IH, tadd_assoc.
Qed.

Lemma tsum_total (l : list tnum) : tsum l = total l.
Proof.
  unfold tsum. now rewrite fold_left_tadd_total, tadd_0_l.
Qed.

Lemma total_cons (v : tnum) (vs : list tnum) :
  total (v :: vs) = tadd v (total vs).
Proof. reflexivity. Qed.

Lemma total_app (l1 l2 : list tnum) :
  total (l1 ++ l2) = tadd (total l1) (total l2).
Proof.
  unfold total. induction l1 as [ | v l1 IH]; cbn [List.app fold_right].
  - now rewrite tadd_0_l.
  - now rewrite IH, tadd_assoc.
Qed.

Lemma total_reals (rs : list R) : total (map Fin rs) = Fin (real_total rs).
Proof.
  unfold total, real_total.
  induction rs as [ | r rs IH]; cbn [map fold_right]; [reflexivity | ].
  now rewrite IH.
Qed.

Lemma arithmetic_mean_reals (rs : list R) :
  rs <> [] ->
  arithmetic_mean (map Fin rs) = Fin (real_total rs / INR (length rs)).
Proof.
  intros Hne. unfold arithmetic_mean. rewrite total_reals, length_map.
  apply tdiv_fin. destruct rs as [ | r rs]; [congruence | ].
  apply not_0_INR. discriminate.
Qed.

Lemma tensor_sum_total (t : tensor) : tensor_sum t = total (elements t).
Proof. apply tsum_total. Qed.

Lemma tensor_mean_arithmetic (t : tensor) :
  tensor_mean t = arithmetic_mean (elements t).
Proof.
  unfold tensor_mean, arithmetic_mean. now rewrite tsum_total.
Qed.

(** ** The bounds *)

Section Bounds.

Variables (n : Z) (delta : R).
Hypothesis Hn : (0 < n)%Z.
Hypothesis Hdelta : 0 < delta < 1.

Lemma dataset_size_ge_1 : 1 <= IZR n.
Proof. apply IZR_le. lia. Qed.

Lemma sqrt_dataset_size_ge_1 : 1 <= sqrt (IZR n).
Proof.
  rewrite <- sqrt_1. apply sqrt_le_1_alt. exact dataset_size_ge_1.
Qed.

Lemma log_argument_gt_2 : 2 < 2 * sqrt (IZR n) / delta.
Proof.
  pose proof sqrt_dataset_size_ge_1 as Hs.
  apply Rmult_lt_reg_r with delta; [lra | ].
  unfold Rdiv. rewrite Rmult_assoc, Rinv_l by lra. nra.
Qed.

Lemma log_term_pos : 0 < log_term (IZR n) delta.
Proof.
  unfold log_term. apply ln_pos. pose proof log_argument_gt_2. lra.
Qed.

(** The shared prefix of the two bounds: the Python float
    [math.log(2 * math.sqrt(dataset_size) / delta)] is computed without
    raising. *)
Lemma log_prefix_ok :
  math_sqrt (IZR n) = Ok (sqrt (IZR n))
  /\ float_div (2 * sqrt (IZR n)) delta = Ok (2 * sqrt (IZR n) / delta)
  /\ math_log (2 * sqrt (IZR n) / delta) = Ok (log_term (IZR n) delta).
Proof.
  pose proof dataset_size_ge_1. pose proof log_argument_gt_2.
  repeat split.
  - apply math_sqrt_ok. lra.
  - apply float_div_ok. lra.
  - apply math_log_ok. lra.
Qed.

Variable scalar_max : Z.

Lemma int_scalar_ok (v : Z) :
  (0 <= v <= scalar_max)%Z -> int_scalar scalar_max v = Ok (IZR v).
Proof.
  intros [Hlo Hhi]. unfold int_scalar.
  destruct (Z.leb_spec (- 2 ^ 63) v) as [_ | Hneg];
    [ | assert (- 2 ^ 63 < 0)%Z by reflexivity; lia].
  destruct (Z.leb_spec v scalar_max); [reflexivity | lia].
Qed.

Lemma int_scalar_overflow (v : Z) :
  (scalar_max < v)%Z -> int_scalar scalar_max v = Raise OverflowError.
Proof.
  intros Hover. unfold int_scalar.
  destruct (Z.leb_spec v scalar_max); [lia | ].
  now rewrite andb_false_r.
Qed.

Lemma quad_bound_finite (risk kl : R) :
  0 <= risk -> 0 <= kl -> (2 * n <= scalar_max)%Z ->
  quad_bound scalar_max (Fin risk) (Fin kl) n delta
  = Ok (Fin (quad_bound_spec risk kl (IZR n) delta)).
Proof.
  intros Hr Hk Hfit.
  destruct log_prefix_ok as (Hs & Hq & Hl).
  pose proof dataset_size_ge_1 as Hge. pose proof log_term_pos as Hlog.
  unfold quad_bound. rewrite Hs; cbn [rbind]. rewrite Hq; cbn [rbind].
  rewrite Hl; cbn [rbind].
  rewrite int_scalar_ok by lia. cbn [rbind].
  cbn [tadd]. rewrite mult_IZR.
  rewrite tdiv_fin by lra.
  set (c := (kl + log_term (IZR n) delta) / (2 * IZR n)).
  assert (Hc : 0 <= c).
  { unfold c. apply Rle_mult_inv_pos; lra. }
  cbn [tadd]. rewrite !tsqrt_fin by lra. cbn [tadd tsquare].
  unfold quad_bound_spec. fold c. do 2 f_equal. ring.
Qed.

Lemma quad_bound_overflow (risk kl : tnum) :
  (scalar_max < 2 * n)%Z ->
  quad_bound scalar_max risk kl n delta = Raise OverflowError.
Proof.
  intros Hover. destruct log_prefix_ok as (Hs & Hq & Hl).
  unfold quad_bound. rewrite Hs; cbn [rbind]. rewrite Hq; cbn [rbind].
  rewrite Hl; cbn [rbind]. now rewrite int_scalar_overflow.
Qed.

Lemma pinsker_bound_finite (risk kl : R) :
  0 <= risk -> 0 <= kl -> (n <= scalar_max)%Z ->
  pinsker_bound scalar_max (Fin risk) (Fin kl) n delta
  = Ok (Fin (pinsker_bound_spec risk kl (IZR n) delta)).
Proof.
  intros Hr Hk Hfit.
  destruct log_prefix_ok as (Hs & Hq & Hl).
  pose proof dataset_size_ge_1 as Hge. pose proof log_term_pos as Hlog.
  unfold pinsker_bound. rewrite Hs; cbn [rbind]. rewrite Hq; cbn [rbind].
  rewrite Hl; cbn [rbind].
  rewrite int_scalar_ok by lia. cbn [rbind].
  cbn [tadd]. rewrite tdiv_fin by lra. rewrite tdiv_fin by lra.
  set (B := (kl + log_term (IZR n) delta) / IZR n).
  assert (HB : 0 <= B).
  { unfold B. apply Rle_mult_inv_pos; lra. }
  rewrite tsqrt_fin by lra. cbn [tadd].
  reflexivity.
Qed.

Lemma pinsker_bound_overflow (risk kl : tnum) :
  (scalar_max < n)%Z ->
  pinsker_bound scalar_max risk kl n delta = Raise OverflowError.
Proof.
  intros Hover. destruct log_prefix_ok as (Hs & Hq & Hl).
  unfold pinsker_bound. rewrite Hs; cbn [rbind]. rewrite Hq; cbn [rbind].
  rewrite Hl; cbn [rbind]. now rewrite int_scalar_overflow.
Qed.

End Bounds.

(** Monotonicity of the two formulas in the complexity term. *)




Lemma complexity_pos (kl : R) (n : Z) (delta : R) :
  0 <= kl -> (0 < n)%Z -> 0 < delta < 1 -> 0 < complexity kl n delta.
Proof.
  intros Hk Hn Hd. unfold complexity.
  pose proof (log_term_pos n delta Hn Hd). lra.
Qed.






Lemma inverted_kl_bound_finite (scalar_max : Z) (risk kl : R) (n : Z)
    (delta : R) :
  0 <= risk -> 0 <= kl -> (0 < n)%Z -> 0 < delta < 1 ->
  (2 * n <= scalar_max)%Z ->
  inverted_kl_bound scalar_max (Fin risk) (Fin kl) n delta
  = Ok (Fin (inverted_kl_bound_spec risk kl (IZR n) delta)).
Proof.
  intros Hr Hk Hn Hd Hfit. unfold inverted_kl_bound.
  rewrite (quad_bound_finite n delta Hn Hd scalar_max risk kl Hr Hk Hfit).
  rewrite (pinsker_bound_finite n delta Hn Hd scalar_max risk kl Hr Hk)
    by lia.
  reflexivity.
Qed.


Lemma quad_bound_overflow_at_2_63 (scalar_max : Z) (risk kl : tnum) :
  (scalar_max < 2 ^ 64)%Z ->
  quad_bound scalar_max risk kl (2 ^ 63) (1 / 2) = Raise OverflowError.
Proof.
  intros Hmax. apply quad_bound_overflow; [reflexivity | lra | ].
  change (2 * 2 ^ 63)%Z with (2 ^ 64)%Z. exact Hmax.
Qed.


(** C3 (amended): on non-negative risk and KL, a positive dataset
    size and [delta] in (0,1), [quad_bound] returns [(sqrt(risk + c) +
    sqrt(c))^2] with [c = (kl + log(2 sqrt(n)/delta)) / (2 n)] when
    [2 n] fits the integer scalar of [Tensor.div], and raises
    [OverflowError] when it does not; [pinsker_bound] returns [risk +
    sqrt(B/2)] with [B = (kl + log(2 sqrt(n)/delta)) / n] when [n]
    fits, and raises [OverflowError] when it does not. *)
Theorem quad_pinsker_bound_formulas (scalar_max : Z) (risk kl : R) (n : Z)
    (delta : R) :
  0 <= risk -> 0 <= kl -> (0 < n)%Z -> 0 < delta < 1 ->
  ((2 * n <= scalar_max)%Z ->
   quad_bound scalar_max (Fin risk) (Fin kl) n delta
   = Ok (Fin (let c := (kl + ln (2 * sqrt (IZR n) / delta)) / (2 * IZR n) in
              (sqrt (risk + c) + sqrt c) ^ 2)))
  /\ ((scalar_max < 2 * n)%Z ->
      quad_bound scalar_max (Fin risk) (Fin kl) n delta
      = Raise OverflowError)
  /\ ((n <= scalar_max)%Z ->
      pinsker_bound scalar_max (Fin risk) (Fin kl) n delta
      = Ok (Fin (let B := (kl + ln (2 * sqrt (IZR n) / delta)) / IZR n in
                 risk + sqrt (B / 2))))
  /\ ((scalar_max < n)%Z ->
      pinsker_bound scalar_max (Fin risk) (Fin kl) n delta
      = Raise OverflowError).
Proof.
  intros Hr Hk Hn Hd. repeat split; intros Hfit.
  - now apply quad_bound_finite.
  - now apply quad_bound_overflow.
  - now apply pinsker_bound_finite.
  - now apply pinsker_bound_overflow.
Qed.

Lemma quad_pinsker_bound_formulas_witness :
  quad_bound (2 ^ 63 - 1) (Fin 0) (Fin 0) 1 (1 / 2)
  = Ok (Fin (let c := (0 + ln (2 * sqrt 1 / (1 / 2))) / (2 * 1) in
             (sqrt (0 + c) + sqrt c) ^ 2))
  /\ pinsker_bound (2 ^ 63 - 1) (Fin 0) (Fin 0) 1 (1 / 2)
     = Ok (Fin (let B := (0 + ln (2 * sqrt 1 / (1 / 2))) / 1 in
                0 + sqrt (B / 2))).
Proof.
  destruct (quad_pinsker_bound_formulas (2 ^ 63 - 1) 0 0 1 (1 / 2))
    as (Hquad & _ & Hpinsker & _); try lra; try lia.
  split; [apply Hquad | apply Hpinsker]; discriminate.
Defined.

(** The statement of C3 fails: with [dataset_size = 2^63] the product
    [2 * dataset_size] is [2^64], which no torch build takes as a
    scalar, and [quad_bound] raises [OverflowError] instead of
    returning the formula. *)
Lemma quad_pinsker_bound_formulas_counterexample :
  quad_bound (2 ^ 63 - 1) (Fin 0) (Fin 0) (2 ^ 63) (1 / 2)
  = Raise OverflowError
  /\ quad_bound (2 ^ 64 - 1) (Fin 0) (Fin 0) (2 ^ 63) (1 / 2)
     = Raise OverflowError.
Proof.
  split; apply quad_bound_overflow_at_2_63; reflexivity.
Qed.




(** ** The surrogate loss *)

Lemma gather_one_fin (n : nat) (row : list R) (l : Z) :
  length row = n -> valid_label n l ->
  gather_one (map Fin row) l = Ok (Fin (nth (Z.to_nat l) row 0)).
Proof.
  intros Hlen [Hlo Hhi]. unfold gather_one.
  destruct (Z.ltb_spec l 0); [lia | ].
  rewrite nth_error_map.
  rewrite (nth_error_nth' row 0) by lia.
  reflexivity.
Qed.

Lemma gather_true_class (n : nat) (y : list Z) : forall rows : list (list R),
  Forall (fun row => length row = n) rows ->
  (length y <= length rows)%nat ->
  Forall (valid_label n) y ->
  gather (map (map Fin) rows) (map (fun label => [label]) y)
  = Ok (map (fun p => [Fin p]) (true_class_probs rows y)).
Proof.
  induction y as [ | l y IH]; intros rows Hwf Hlen Hy.
  - destruct rows; reflexivity.
  - destruct rows as [ | row rows]; [simpl in Hlen; lia | ].
    inversion Hwf as [ | ? ? Hrow Hrows]; subst.
    inversion Hy as [ | ? ? Hl Hy']; subst.
    cbn [map gather mapR].
    rewrite (gather_one_fin (length row) row l eq_refl Hl). cbn [rbind].
    rewrite IH; [reflexivity | assumption | simpl in Hlen; lia | assumption].
Qed.

Lemma clamp_prob_range (t p : R) :
  0 < t < 1 -> t <= clamp_prob t p <= 1.
Proof.
  intros Ht. unfold clamp_prob. split.
  - apply Rmin_glb; [apply Rmax_r | lra].
  - apply Rmin_r.
Qed.

Lemma clamp_prob_engaged (t p : R) :
  0 < t < 1 -> p <= t -> clamp_prob t p = t.
Proof.
  intros Ht Hp. unfold clamp_prob.
  rewrite Rmax_right by assumption. apply Rmin_left. lra.
Qed.

Lemma neg_log_clamp (t : R) (p : R) :
  0 < t < 1 ->
  tneg (tlog (tclamp t 1 (Fin p))) = Fin (- ln (clamp_prob t p)).
Proof.
  intros Ht. pose proof (clamp_prob_range t p Ht) as Hc.
  cbn [tclamp]. fold (clamp_prob t p).
  rewrite tlog_fin by lra. reflexivity.
Qed.

Lemma log_classes_pos (n : nat) : (2 <= n)%nat -> 0 < ln (INR n).
Proof.
  intros Hn. apply ln_pos.
  apply Rlt_le_trans with (INR 2); [simpl; lra | now apply le_INR].
Qed.

Lemma neg_log_clamp_range (t p : R) :
  0 < t < 1 ->
  0 <= - ln (clamp_prob t p) <= - ln t
  /\ (p <= t -> - ln (clamp_prob t p) = - ln t).
Proof.
  intros Ht. pose proof (clamp_prob_range t p Ht) as [Hlo Hhi].
  assert (H1 : ln (clamp_prob t p) <= 0).
  { rewrite <- ln_1. apply ln_le_mono; lra. }
  assert (H2 : ln t <= ln (clamp_prob t p)) by (apply ln_le_mono; lra).
  split; [lra | ].
  intros Hp. now rewrite clamp_prob_engaged.
Qed.

Lemma surrogate_spec_range (t : R) (norm : bool) (n : nat) (p : R) :
  0 < t < 1 -> (norm = true -> (2 <= n)%nat) ->
  0 <= surrogate_spec t norm n p <= surrogate_cap t norm n
  /\ (p <= t -> surrogate_spec t norm n p = surrogate_cap t norm n).
Proof.
  intros Ht Hn. pose proof (neg_log_clamp_range t p Ht) as [[H0 H1] Heq].
  unfold surrogate_spec, surrogate_cap. destruct norm.
  - pose proof (log_classes_pos n (Hn eq_refl)) as Hlog.
    assert (Hinv : 0 < / ln (INR n)) by now apply Rinv_0_lt_compat.
    unfold Rdiv. repeat split.
    + nra.
    + nra.
    + intros Hp. now rewrite Heq.
  - repeat split; trivial.
Qed.

Lemma surrogate_on_reals (n : nat) (rows : list (list R)) (y : list Z)
    (t : R) (norm : bool) :
  Forall (fun row => length row = n) rows ->
  y <> [] -> (length y <= length rows)%nat ->
  Forall (valid_label n) y ->
  0 < t < 1 -> (norm = true -> (2 <= n)%nat) ->
  surrogate (real_tensor n rows) y t norm
  = Ok (column (map (surrogate_spec t norm n) (true_class_probs rows y))).
Proof.
  intros Hwf Hne Hlen Hy Ht Hn. unfold surrogate.
  assert (Hview : view_column y = Ok (map (fun label => [label]) y)).
  { destruct y; [contradiction | reflexivity]. }
  rewrite Hview. cbn [rbind real_tensor data shape1].
  rewrite (gather_true_class n y rows Hwf Hlen Hy). cbn [rbind].
  unfold column. rewrite !map_map. cbn [map].
  destruct norm.
  - pose proof (log_classes_pos n (Hn eq_refl)) as Hlog.
    rewrite math_log_ok.
    2:{ apply Rlt_le_trans with (INR 2); [simpl; lra | apply le_INR; auto]. }
    cbn [rbind]. rewrite !map_map. cbn [map]. do 2 f_equal.
    apply map_ext. intros p. rewrite neg_log_clamp by assumption.
    rewrite tdiv_fin by lra. reflexivity.
  - do 2 f_equal. apply map_ext. intros p.
    now rewrite neg_log_clamp.
Qed.

(** C2 (amended): on a probability matrix with a non-empty batch of
    in-range labels, a threshold in (0,1) and, when normalisation is
    on, at least two classes, [surrogate] returns for every example
    [-log(clamp(p_true_class, [t, 1]))], over [log(num_classes)] when
    normalised; every value lies between 0 and the cap [-log(t)]
    (scaled likewise) and equals the cap when the true-class
    probability is at most [t]. *)
Theorem surrogate_values (n : nat) (rows : list (list R)) (y : list Z)
    (t : R) (norm : bool) :
  Forall (fun row => length row = n) rows ->
  y <> [] -> (length y <= length rows)%nat ->
  Forall (valid_label n) y ->
  0 < t < 1 -> (norm = true -> (2 <= n)%nat) ->
  surrogate (real_tensor n rows) y t norm
  = Ok (column (map (surrogate_spec t norm n) (true_class_probs rows y)))
  /\ Forall (fun p =>
               0 <= surrogate_spec t norm n p <= surrogate_cap t norm n
               /\ (p <= t ->
                   surrogate_spec t norm n p = surrogate_cap t norm n))
            (true_class_probs rows y).
Proof.
  intros Hwf Hne Hlen Hy Ht Hn. split.
  - now apply surrogate_on_reals.
  - apply Forall_forall. intros p _. now apply surrogate_spec_range.
Qed.

Lemma surrogate_values_witness :
  surrogate (real_tensor 2 [[1 / 4; 3 / 4]]) [1%Z] (1 / 2) true
  = Ok (column (map (surrogate_spec (1 / 2) true 2)
                    (true_class_probs [[1 / 4; 3 / 4]] [1%Z])))
  /\ Forall (fun p =>
               0 <= surrogate_spec (1 / 2) true 2 p
                 <= surrogate_cap (1 / 2) true 2
               /\ (p <= 1 / 2 ->
                   surrogate_spec (1 / 2) true 2 p
                   = surrogate_cap (1 / 2) true 2))
            (true_class_probs [[1 / 4; 3 / 4]] [1%Z]).
Proof.
  apply (surrogate_values 2 [[1 / 4; 3 / 4]] [1%Z] (1 / 2) true).
  - repeat constructor.
  - discriminate.
  - simpl. lia.
  - repeat constructor; unfold valid_label; simpl; lia.
  - lra.
  - intros _. lia.
Defined.

(** With a single class and normalisation the divisor is
    [math.log(1) = 0.0]: nothing raises, the values are not finite. *)
Lemma surrogate_single_class_values (rows : list (list R)) (y : list Z)
    (t : R) :
  Forall (fun row => length row = 1%nat) rows ->
  y <> [] -> (length y <= length rows)%nat ->
  Forall (valid_label 1) y ->
  0 < t < 1 ->
  surrogate (real_tensor 1 rows) y t true
  = Ok (mkTensor 1 (map (fun p => [if Rlt_dec p 1 then PInf else NaN])
                        (true_class_probs rows y))).
Proof.
  intros Hwf Hne Hlen Hy Ht. unfold surrogate.
  assert (Hview : view_column y = Ok (map (fun label => [label]) y)).
  { destruct y; [contradiction | reflexivity]. }
  rewrite Hview. cbn [rbind real_tensor data shape1].
  rewrite (gather_true_class 1 y rows Hwf Hlen Hy). cbn [rbind].
  change (INR 1) with 1. rewrite math_log_ok by lra. cbn [rbind].
  rewrite !map_map. cbn [map]. do 2 f_equal.
  apply map_ext. intros p. rewrite neg_log_clamp by assumption.
  rewrite ln_1. unfold clamp_prob.
  destruct (Rlt_dec p 1) as [Hp | Hp].
  - rewrite tdiv_pos_zero; [reflexivity | ].
    assert (Hm : Rmax p t < 1) by (apply Rmax_lub_lt; lra).
    rewrite Rmin_left by lra.
    assert (0 < Rmax p t) by (pose proof (Rmax_r p t); lra).
    pose proof (ln_neg (Rmax p t)). lra.
  - assert (Hm : 1 <= Rmax p t) by (pose proof (Rmax_l p t); lra).
    rewrite Rmin_right by lra. rewrite ln_1, Ropp_0.
    now rewrite tdiv_zero_zero.
Qed.

Lemma single_class_loss_entry (t p : R) :
  tdiv (tneg (tlog (tclamp t 1 (Fin p)))) (Fin (ln 1)) = single_class_loss t p.
Proof.
  unfold single_class_loss. cbn [tclamp]. fold (clamp_prob t p).
  assert (Hle : clamp_prob t p <= 1) by apply Rmin_r.
  set (c := clamp_prob t p) in *. rewrite ln_1. cbn [tlog].
  destruct (Rlt_dec c 0) as [Hneg | Hnonneg].
  - destruct (Rlt_dec 0 c); [lra | ].
    destruct (Req_dec_T c 0); [lra | reflexivity].
  - destruct (Rlt_dec 0 c) as [Hpos | Hzero].
    + cbn [tneg]. destruct (Rlt_dec c 1) as [Hlt | Hge].
      * apply tdiv_pos_zero. pose proof (ln_neg c). lra.
      * replace c with 1 by lra. rewrite ln_1, Ropp_0.
        apply tdiv_zero_zero.
    + destruct (Req_dec_T c 0); [ | lra].
      destruct (Rlt_dec c 1); [ | lra].
      cbn [tneg tdiv]. destruct (Rlt_dec 0 0); [lra | reflexivity].
Qed.

Lemma single_class_loss_cases (t : R) :
  (forall p, single_class_loss t p = PInf \/ single_class_loss t p = NaN)
  /\ (0 < t < 1 ->
      forall p, single_class_loss t p = if Rlt_dec p 1 then PInf else NaN)
  /\ (1 <= t -> forall p, single_class_loss t p = NaN).
Proof.
  split; [ | split].
  - intros p. unfold single_class_loss.
    destruct (Rlt_dec _ 0); [now right | ].
    destruct (Rlt_dec _ 1); [now left | now right].
  - intros Ht p. unfold single_class_loss, clamp_prob.
    pose proof (Rmax_l p t) as Hl. pose proof (Rmax_r p t) as Hr.
    destruct (Rlt_dec p 1) as [Hp | Hp].
    + assert (Hm : Rmax p t < 1) by (apply Rmax_lub_lt; lra).
      rewrite Rmin_left by lra.
      destruct (Rlt_dec (Rmax p t) 0); [lra | ].
      destruct (Rlt_dec (Rmax p t) 1); [reflexivity | lra].
    + rewrite Rmin_right by lra.
      destruct (Rlt_dec 1 0); [lra | ].
      destruct (Rlt_dec 1 1); [lra | reflexivity].
  - intros Ht p. unfold single_class_loss, clamp_prob.
    pose proof (Rmax_r p t) as Hr. rewrite Rmin_right by lra.
    destruct (Rlt_dec 1 0); [lra | ].
    destruct (Rlt_dec 1 1); [lra | reflexivity].
Qed.

(** The same for every threshold, none excluded. *)
Lemma surrogate_single_class (rows : list (list R)) (y : list Z) (t : R) :
  Forall (fun row => length row = 1%nat) rows ->
  y <> [] -> (length y <= length rows)%nat ->
  Forall (valid_label 1) y ->
  surrogate (real_tensor 1 rows) y t true
  = Ok (mkTensor 1 (map (fun p => [single_class_loss t p])
                        (true_class_probs rows y))).
Proof.
  intros Hwf Hne Hlen Hy. unfold surrogate.
  assert (Hview : view_column y = Ok (map (fun label => [label]) y)).
  { destruct y; [contradiction | reflexivity]. }
  rewrite Hview. cbn [rbind real_tensor data shape1].
  rewrite (gather_true_class 1 y rows Hwf Hlen Hy). cbn [rbind].
  change (INR 1) with 1. rewrite math_log_ok by lra. cbn [rbind].
  rewrite !map_map. cbn [map]. do 2 f_equal.
  apply map_ext. intros p. now rewrite single_class_loss_entry.
Qed.

Lemma single_class_row_nan :
  surrogate (real_tensor 1 [[1]]) [0%Z] (1 / 2) true = Ok (mkTensor 1 [[NaN]]).
Proof.
  rewrite surrogate_single_class_values.
  - cbn [true_class_probs combine map Z.to_nat nth].
    destruct (Rlt_dec 1 1); [lra | reflexivity].
  - repeat constructor.
  - discriminate.
  - simpl. lia.
  - repeat constructor; unfold valid_label; simpl; lia.
  - lra.
Qed.

(** The statement of C2 fails on the one-class probability matrix
    [[1.0]] with normalisation: the value returned is [nan], no real
    number of any interval. *)
Lemma surrogate_values_counterexample :
  surrogate (real_tensor 1 [[1]]) [0%Z] (1 / 2) true = Ok (mkTensor 1 [[NaN]])
  /\ ~ (exists v : R,
          surrogate (real_tensor 1 [[1]]) [0%Z] (1 / 2) true = Ok (column [v])).
Proof.
  split; [exact single_class_row_nan | ].
  intros [v Hv]. rewrite single_class_row_nan in Hv. discriminate.
Qed.

(** ** Construction: registration and recovery of the layers *)

Lemma contains_dot_layer_prefix (s : string) :
  contains "." ("bayesian_layer" ++ s) = contains "." s.
Proof. reflexivity. Qed.

Lemma contains_dot_digits (d : uint) :
  contains "." (NilEmpty.string_of_uint d) = false.
Proof.
  induction d; simpl; trivial.
Qed.

Lemma contains_marker_layer_prefix (s : string) :
  contains "bayesian_layer" ("bayesian_layer" ++ s) = true.
Proof. destruct s; reflexivity. Qed.

Lemma add_module_layer (mods : list (string * nn_module)) (i : nat)
    (m : nn_module) :
  add_module mods (layer_name i) m = Ok (dict_set mods (layer_name i) m).
Proof.
  unfold add_module, layer_name, decimal.
  rewrite contains_dot_layer_prefix, contains_dot_digits.
  reflexivity.
Qed.

Lemma layer_name_inj (i j : nat) : layer_name i = layer_name j -> i = j.
Proof.
  unfold layer_name, decimal. intros H.
  cbn [String.append] in H. injection H as H.
  apply Unsigned.to_uint_inj.
  pose proof (NilEmpty.usu (Nat.to_uint i)) as Hi.
  pose proof (NilEmpty.usu (Nat.to_uint j)) as Hj.
  rewrite H in Hi. congruence.
Qed.

Lemma dict_set_fresh {A} (d : list (string * A)) (name : string) (m : A) :
  Forall (fun kv => fst kv <> name) d ->
  dict_set d name m = d ++ [(name, m)].
Proof.
  induction 1 as [ | [k v] d Hk Hd IH]; [reflexivity | ].
  cbn [dict_set List.app]. simpl in Hk.
  destruct (String.eqb_spec k name); [contradiction | ].
  now rewrite IH.
Qed.

Lemma register_layers_total (layers : list nn_module) :
  forall i mods, exists mods', register_layers i layers mods = Ok mods'.
Proof.
  induction layers as [ | l layers IH]; intros i mods; cbn [register_layers].
  - eauto.
  - rewrite add_module_layer. cbn [rbind]. apply IH.
Qed.

Lemma register_layers_fresh (layers : list nn_module) : forall i mods,
  Forall (fun kv => forall k, (i <= k)%nat -> fst kv <> layer_name k) mods ->
  register_layers i layers mods = Ok (mods ++ enumerate_named i layers).
Proof.
  induction layers as [ | l layers IH]; intros i mods Hmods;
    cbn [register_layers enumerate_named].
  - now rewrite app_nil_r.
  - rewrite add_module_layer. cbn [rbind].
    rewrite dict_set_fresh.
    2:{ eapply Forall_impl; [ | exact Hmods]. intros kv Hkv. now apply Hkv. }
    rewrite IH.
    + now rewrite <- app_assoc.
    + apply Forall_app. split.
      * eapply Forall_impl; [ | exact Hmods]. intros kv Hkv k Hk.
        apply Hkv. lia.
      * constructor; [ | constructor]. intros k Hk Heq. simpl in Heq.
        apply layer_name_inj in Heq. lia.
Qed.

Lemma named_modules_unfold (u : nat) (kids : list (string * nn_module))
    (memo : list nat) (prefix : string) :
  named_modules (MkModule u kids) memo prefix
  = if existsb (Nat.eqb u) memo then ([], memo)
    else let '(r, memo') := named_children prefix kids (u :: memo) in
         ((prefix, MkModule u kids) :: r, memo').
Proof.
  cbn [named_modules]. destruct (existsb (Nat.eqb u) memo); [reflexivity | ].
  match goal with
  | |- (let '(r, memo') := ?F kids _ in _) = _ =>
      assert (H : forall ks m, F ks m = named_children prefix ks m)
  end.
  { induction ks as [ | [name k] ks IH]; intros m; [reflexivity | ].
    cbn [named_children]. cbn iota beta.
    destruct (named_modules k m _) as [r1 memo1].
    now rewrite IH. }
  now rewrite H.
Qed.

Lemma existsb_eqb_false (u : nat) (memo : list nat) :
  ~ In u memo -> existsb (Nat.eqb u) memo = false.
Proof.
  intros Hnot. destruct (existsb (Nat.eqb u) memo) eqn:E; [ | reflexivity].
  apply existsb_exists in E as (x & Hin & Hx).
  apply Nat.eqb_eq in Hx. subst. contradiction.
Qed.

Lemma named_children_leaves (ks : list (string * nn_module)) :
  forall memo,
  Forall (fun kv => is_leaf (snd kv)) ks ->
  NoDup (map (fun kv => uid (snd kv)) ks) ->
  (forall kv, In kv ks -> ~ In (uid (snd kv)) memo) ->
  fst (named_children "" ks memo) = ks.
Proof.
  induction ks as [ | [name k] ks IH]; intros memo Hleaf Hnd Hmemo;
    [reflexivity | ].
  inversion Hleaf as [ | ? ? Hk Hks]; subst.
  inversion Hnd as [ | ? ? Hnotin Hnd']; subst.
  destruct k as [u kids]. unfold is_leaf in Hk. simpl in Hk. subst kids.
  cbn [named_children]. rewrite named_modules_unfold.
  rewrite existsb_eqb_false by (apply (Hmemo (name, MkModule u [])); now left).
  cbn [named_children String.eqb String.append].
  specialize (IH (u :: memo) Hks Hnd').
  destruct (named_children "" ks (u :: memo)) as [r2 memo2] eqn:E.
  cbn [fst].
  change ([(name, MkModule u [])] ++ r2) with ((name, MkModule u []) :: r2).
  f_equal. simpl in IH. apply IH.
  intros kv Hin [Heq | Hin'].
  - apply Hnotin. simpl. rewrite Heq.
    now apply (in_map (fun kv => uid (snd kv))).
  - apply (Hmemo kv); [now right | assumption].
Qed.

Lemma filter_marker_enumerate (layers : list nn_module) : forall i,
  map snd (filter (fun nm => contains "bayesian_layer" (fst nm))
                  (enumerate_named i layers)) = layers.
Proof.
  induction layers as [ | l layers IH]; intros i; [reflexivity | ].
  cbn [enumerate_named filter fst]. unfold layer_name at 1.
  rewrite contains_marker_layer_prefix. cbn [map snd]. now rewrite IH.
Qed.

Lemma enumerate_named_snd (layers : list nn_module) : forall i,
  map snd (enumerate_named i layers) = layers.
Proof.
  induction layers as [ | l layers IH]; intros i; [reflexivity | ].
  cbn [enumerate_named map snd]. now rewrite IH.
Qed.

(** [__init__] raises on no list of layers. *)
Lemma init_total (self_id : nat) (layers : list nn_module) (t : R)
    (norm oracle : bool) :
  exists c, __init__ self_id layers t norm oracle = Ok c
            /\ prob_threshold c = t
            /\ normalize_surrogate_by_log_classes c = norm
            /\ oracle_prior_variance c = oracle.
Proof.
  unfold __init__.
  destruct (register_layers_total layers 0%nat []) as [mods Hmods].
  rewrite Hmods. cbn [rbind]. eexists. split; [reflexivity | ].
  repeat split.
Qed.

(** On distinct layer objects with no child module, the introspection
    of [__init__] recovers the list it was given. *)
Lemma init_recovers_leaf_layers (self_id : nat) (layers : list nn_module)
    (t : R) (norm oracle : bool) :
  Forall is_leaf layers ->
  NoDup (map uid layers) ->
  ~ In self_id (map uid layers) ->
  exists c, __init__ self_id layers t norm oracle = Ok c
            /\ bayesian_layers c = layers.
Proof.
  intros Hleaf Hnd Hself. unfold __init__.
  rewrite register_layers_fresh by constructor. cbn [rbind List.app].
  eexists. split; [reflexivity | ]. cbn [bayesian_layers].
  unfold recover_layers. rewrite named_modules_unfold. cbn [existsb List.app].
  pose proof (named_children_leaves (enumerate_named 0 layers) [self_id]) as H.
  destruct (named_children "" (enumerate_named 0 layers) [self_id])
    as [r memo] eqn:E.
  cbn beta iota. cbn [fst] in H |- *. rewrite H.
  - cbn [filter fst]. change (contains "bayesian_layer" "") with false.
    cbn iota. apply filter_marker_enumerate.
  - apply Forall_forall. intros kv Hin.
    apply (in_map snd) in Hin. rewrite enumerate_named_snd in Hin.
    rewrite Forall_forall in Hleaf. now apply Hleaf.
  - rewrite <- (map_map snd uid), enumerate_named_snd. exact Hnd.
  - intros kv Hin [Heq | []]. apply Hself. rewrite Heq.
    apply in_map. apply (in_map snd) in Hin.
    now rewrite enumerate_named_snd in Hin.
Qed.

(** C8 (amended): with one class and normalisation enabled nothing is
    rejected or guarded, whatever the threshold: [__init__] accepts
    the configuration and [surrogate] raises nothing; it divides by
    [log(1) = 0] and returns no finite value: for each example, by its
    true-class probability clamped into [[prob_threshold, 1]], [+inf]
    when the clamped value is at least 0 and below 1, and [nan] when
    it is 1 or negative.  With a threshold in (0,1) that is [+inf] for
    a true-class probability below 1 and [nan] from 1 on; with a
    threshold of 1 or more it is [nan] for every example. *)
Theorem single_class_normalisation_unguarded (self_id : nat)
    (layers : list nn_module) (oracle : bool)
    (rows : list (list R)) (y : list Z) (t : R) :
  Forall (fun row => length row = 1%nat) rows ->
  y <> [] -> (length y <= length rows)%nat ->
  Forall (valid_label 1) y ->
  exists c,
    __init__ self_id layers t true oracle = Ok c
    /\ surrogate (real_tensor 1 rows) y (prob_threshold c)
         (normalize_surrogate_by_log_classes c)
       = Ok (mkTensor 1 (map (fun p => [single_class_loss t p])
                             (true_class_probs rows y)))
    /\ (forall p, single_class_loss t p = PInf \/ single_class_loss t p = NaN)
    /\ (0 < t < 1 ->
        forall p, single_class_loss t p = if Rlt_dec p 1 then PInf else NaN)
    /\ (1 <= t -> forall p, single_class_loss t p = NaN).
Proof.
  intros Hwf Hne Hlen Hy.
  destruct (init_total self_id layers t true oracle) as (c & Hc & Ht' & Hn & _).
  exists c. split; [exact Hc | ]. split.
  - rewrite Ht', Hn. now apply surrogate_single_class.
  - apply single_class_loss_cases.
Qed.

Lemma single_class_normalisation_unguarded_witness :
  (exists c,
      __init__ 0 [MkModule 1 []] (1 / 2) true false = Ok c
      /\ surrogate (real_tensor 1 [[1]; [1 / 2]]) [0%Z; 0%Z] (prob_threshold c)
           (normalize_surrogate_by_log_classes c)
         = Ok (mkTensor 1 [[NaN]; [PInf]]))
  /\ (exists c,
        __init__ 0 [MkModule 1 []] 1 true false = Ok c
        /\ surrogate (real_tensor 1 [[1 / 4]]) [0%Z] (prob_threshold c)
             (normalize_surrogate_by_log_classes c)
           = Ok (mkTensor 1 [[NaN]])).
Proof.
  split.
  - destruct (single_class_normalisation_unguarded 0 [MkModule 1 []] false
                [[1]; [1 / 2]] [0%Z; 0%Z] (1 / 2))
      as (c & Hc & Hrun & _ & Hmid & _).
    + repeat constructor.
    + discriminate.
    + simpl. lia.
    + repeat constructor; unfold valid_label; simpl; lia.
    + exists c. split; [exact Hc | ]. rewrite Hrun.
      cbn [true_class_probs combine map].
      rewrite !Hmid by lra.
      change (nth (Z.to_nat 0) [1] 0) with 1.
      change (nth (Z.to_nat 0) [1 / 2] 0) with (1 / 2).
      destruct (Rlt_dec 1 1); [lra | ].
      destruct (Rlt_dec (1 / 2) 1); [reflexivity | lra].
  - destruct (single_class_normalisation_unguarded 0 [MkModule 1 []] false
                [[1 / 4]] [0%Z] 1)
      as (c & Hc & Hrun & _ & _ & Hhigh).
    + repeat constructor.
    + discriminate.
    + simpl. lia.
    + repeat constructor; unfold valid_label; simpl; lia.
    + exists c. split; [exact Hc | ]. rewrite Hrun.
      cbn [true_class_probs combine map].
      now rewrite Hhigh by lra.
Defined.

(** The statement of C8 fails: a one-class classifier with
    normalisation is constructed, and its surrogate on the probability
    matrix [[1.0]] is [nan], with no exception. *)
Lemma single_class_normalisation_counterexample :
  exists c,
    __init__ 0 [MkModule 1 []] (1 / 2) true false = Ok c
    /\ normalize_surrogate_by_log_classes c = true
    /\ surrogate (real_tensor 1 [[1]]) [0%Z] (prob_threshold c)
         (normalize_surrogate_by_log_classes c)
       = Ok (mkTensor 1 [[NaN]]).
Proof.
  eexists. split; [reflexivity | ]. split; [reflexivity | ].
  exact single_class_row_nan.
Qed.

(** C10 (the code at a failing input): a layer that owns a child
    module is registered as [bayesian_layer0] and its child as
    [bayesian_layer0.linear]; both names contain the marker, so the
    recovered list has two modules where one layer was supplied, and
    [forward] applies two modules (two draws of the counting stack)
    where one layer should be applied once. *)
Theorem init_recovers_child_module :
  let inner := MkModule 2 [] in
  let layer := MkModule 1 [("linear"%string, inner)] in
  exists c,
    __init__ 0 [layer] (1 / 2) false false = Ok c
    /\ bayesian_layers c = [layer; inner]
    /\ bayesian_layers c <> [layer]
    /\ forward counting_forward c sample_probs "MC" (mkHeap true 0%nat)
       = (Ok sample_probs, mkHeap true 2%nat).
Proof.
  intros inner layer. eexists. split; [reflexivity | ].
  split; [reflexivity | ]. split; [discriminate | reflexivity].
Qed.

(** A layer object supplied twice is registered under two names and
    recovered once: [named_modules] skips an object it has seen. *)
Lemma init_drops_repeated_layer :
  let layer := MkModule 1 [] in
  exists c,
    __init__ 0 [layer; layer] (1 / 2) false false = Ok c
    /\ bayesian_layers c = [layer].
Proof.
  intros layer. eexists. split; reflexivity.
Qed.

(** ** The stateful methods *)

Section ClassifierProofs.

Variable W : Type.
Variable layer_forward : nat -> tensor -> string -> W -> result tensor * W.
Variable layer_kl : nat -> W -> result tnum * W.
Variable layer_kl_oracle_prior_variance : nat -> W -> result tnum * W.
Variable Classifier_evaluate : tensor -> list Z -> result (tnum * tnum).
Variable layers_train : bool -> W -> W.

Lemma heap_eta (h : heap W) : mkHeap (training h) (world h) = h.
Proof. now destruct h. Qed.

Lemma lift_world_training {A} (f : W -> result A * W) (h : heap W) :
  training (snd (lift_world f h)) = training h.
Proof.
  unfold lift_world. now destruct (f (world h)).
Qed.

Lemma forward_layers_training (layers : list nn_module) :
  forall x mode h,
  training (snd (forward_layers layer_forward layers x mode h)) = training h.
Proof.
  induction layers as [ | l layers IH]; intros x mode h; [reflexivity | ].
  cbn [forward_layers]. unfold bind.
  pose proof (lift_world_training (layer_forward (uid l) x mode) h) as Hl.
  destruct (lift_world (layer_forward (uid l) x mode) h) as [[x' | e] h1];
    cbn [snd] in *.
  - now rewrite IH.
  - exact Hl.
Qed.

(** *** [kl()] *)

Lemma layer_calls_length (method : nat -> W -> result tnum * W)
    (layers : list nn_module) (w w' : W) (vs : list tnum) :
  layer_calls method layers w vs w' -> length vs = length layers.
Proof.
  induction 1 as [ | layer layers w w1 w' v vs _ _ IH]; [reflexivity | ].
  cbn [length]. now rewrite IH.
Qed.

Lemma layer_kl_call_selected (oracle : bool) (layer : nn_module)
    (h : heap W) :
  layer_kl_call layer_kl layer_kl_oracle_prior_variance oracle layer h
  = lift_world ((if oracle then layer_kl_oracle_prior_variance
                 else layer_kl) (uid layer)) h.
Proof. now destruct oracle. Qed.

Lemma kl_loop_calls (oracle : bool) (layers : list nn_module) (w w' : W)
    (vs : list tnum) :
  layer_calls (if oracle then layer_kl_oracle_prior_variance else layer_kl)
    layers w vs w' ->
  forall net_kl flag,
  kl_loop layer_kl layer_kl_oracle_prior_variance oracle layers net_kl
    (mkHeap flag w)
  = (Ok (tadd net_kl (total vs)), mkHeap flag w').
Proof.
  induction 1 as [w | layer layers w w1 w' v vs Hcall _ IH];
    intros net_kl flag.
  - cbn [kl_loop]. unfold ret, total. cbn [fold_right].
    now rewrite tadd_0_r.
  - cbn [kl_loop]. unfold bind. rewrite layer_kl_call_selected.
    unfold lift_world. cbn [world training]. rewrite Hcall, IH.
    unfold total. cbn [fold_right]. now rewrite tadd_assoc.
Qed.

Lemma kl_loop_calls_raise (oracle : bool) (layers : list nn_module)
    (w w' : W) (e : exn) :
  layer_calls_raise
    (if oracle then layer_kl_oracle_prior_variance else layer_kl)
    layers w e w' ->
  forall net_kl flag,
  kl_loop layer_kl layer_kl_oracle_prior_variance oracle layers net_kl
    (mkHeap flag w)
  = (Raise e, mkHeap flag w').
Proof.
  induction 1 as [layer layers w w' e Hcall
                 | layer layers w w1 w' v e Hcall _ IH];
    intros net_kl flag; cbn [kl_loop]; unfold bind;
    rewrite layer_kl_call_selected; unfold lift_world;
    cbn [world training]; rewrite Hcall; [reflexivity | apply IH].
Qed.

Lemma kl_loop_pure (oracle : bool) (layers : list nn_module) :
  Forall (fun l => reads_only
                     ((if oracle then layer_kl_oracle_prior_variance
                       else layer_kl) (uid l)))
         layers ->
  forall net_kl h,
  snd (kl_loop layer_kl layer_kl_oracle_prior_variance oracle layers net_kl h)
  = h.
Proof.
  induction 1 as [ | l layers Hpure _ IH]; intros net_kl h; [reflexivity | ].
  cbn [kl_loop]. unfold bind. rewrite layer_kl_call_selected.
  unfold lift_world. specialize (Hpure (world h)).
  destruct ((if oracle then layer_kl_oracle_prior_variance else layer_kl)
              (uid l) (world h)) as [[v | e] w1]; cbn [snd] in *; subst w1;
    rewrite heap_eta; [apply IH | reflexivity].
Qed.

Lemma kl_loop_standard_formula (other : nat -> W -> result tnum * W)
    (layers : list nn_module) : forall net_kl h,
  kl_loop layer_kl other false layers net_kl h
  = kl_loop layer_kl layer_kl_oracle_prior_variance false layers net_kl h.
Proof.
  induction layers as [ | l layers IH]; intros net_kl h; [reflexivity | ].
  cbn [kl_loop]. unfold bind. cbn [layer_kl_call].
  destruct (lift_world (layer_kl (uid l)) h) as [[v | e] h1];
    [apply IH | reflexivity].
Qed.

Lemma kl_loop_oracle_formula (other : nat -> W -> result tnum * W)
    (layers : list nn_module) : forall net_kl h,
  kl_loop other layer_kl_oracle_prior_variance true layers net_kl h
  = kl_loop layer_kl layer_kl_oracle_prior_variance true layers net_kl h.
Proof.
  induction layers as [ | l layers IH]; intros net_kl h; [reflexivity | ].
  cbn [kl_loop]. unfold bind. cbn [layer_kl_call].
  destruct (lift_world (layer_kl_oracle_prior_variance (uid l)) h)
    as [[v | e] h1]; [apply IH | reflexivity].
Qed.

(** C6: [kl()] calls, on every registered layer once and in order,
    [kl_oracle_prior_variance()] when the oracle flag is set and
    [kl()] otherwise.  When those calls return the values [vs], it
    returns their sum, one term per layer, and leaves the store the
    calls leave; when one of them raises, it raises the same
    exception.  It leaves the state untouched when the methods it
    calls touch nothing; the methods it does not select play no part.
    The sum is the sum of real numbers on finite values. *)
Theorem kl_sums_layers (self : classifier) (h : heap W) :
  (forall vs w',
      layer_calls
        (if oracle_prior_variance self then layer_kl_oracle_prior_variance
         else layer_kl)
        (bayesian_layers self) (world h) vs w' ->
      kl layer_kl layer_kl_oracle_prior_variance self h
      = (Ok (total vs), mkHeap (training h) w')
      /\ length vs = length (bayesian_layers self))
  /\ (forall e w',
        layer_calls_raise
          (if oracle_prior_variance self then layer_kl_oracle_prior_variance
           else layer_kl)
          (bayesian_layers self) (world h) e w' ->
        kl layer_kl layer_kl_oracle_prior_variance self h
        = (Raise e, mkHeap (training h) w'))
  /\ (Forall (fun l =>
                reads_only
                  ((if oracle_prior_variance self
                    then layer_kl_oracle_prior_variance
                    else layer_kl) (uid l)))
             (bayesian_layers self) ->
      snd (kl layer_kl layer_kl_oracle_prior_variance self h) = h)
  /\ (oracle_prior_variance self = false ->
      forall other,
        kl layer_kl other self h
        = kl layer_kl layer_kl_oracle_prior_variance self h)
  /\ (oracle_prior_variance self = true ->
      forall other,
        kl other layer_kl_oracle_prior_variance self h
        = kl layer_kl layer_kl_oracle_prior_variance self h)
  /\ (forall rs : list R, total (map Fin rs) = Fin (real_total rs)).
Proof.
  split; [ | split; [ | split; [ | split; [ | split]]]].
  - intros vs w' Hcalls. split.
    + unfold kl. rewrite <- (heap_eta h) at 1.
      rewrite (kl_loop_calls _ _ _ _ _ Hcalls). now rewrite tadd_0_l.
    + eapply layer_calls_length. exact Hcalls.
  - intros e w' Hcalls. unfold kl. rewrite <- (heap_eta h) at 1.
    apply (kl_loop_calls_raise _ _ _ _ _ Hcalls).
  - intros Hpure. unfold kl. now apply kl_loop_pure.
  - intros Hflag other. unfold kl. rewrite Hflag.
    apply kl_loop_standard_formula.
  - intros Hflag other. unfold kl. rewrite Hflag.
    apply kl_loop_oracle_formula.
  - apply total_reals.
Qed.

(** *** [forward_train] *)

Lemma passes_run_length (self : classifier) (x : tensor) (y : list Z)
    (k : nat) (h h' : heap W) (ks : list tnum) (ss : list tensor) :
  passes_run layer_forward layer_kl layer_kl_oracle_prior_variance
    self x y k h ks ss h' ->
  length ks = k /\ length ss = k.
Proof.
  induction 1 as [ | k h h1 h2 h' probs s kv ks ss _ _ _ _ [IHk IHs]];
    [now split | ].
  cbn [length]. now rewrite IHk, IHs.
Qed.

Lemma forward_train_loop_passes (self : classifier) (x : tensor) (y : list Z)
    (k : nat) (h h' : heap W) (ks : list tnum) (ss : list tensor) :
  passes_run layer_forward layer_kl layer_kl_oracle_prior_variance
    self x y k h ks ss h' ->
  forall a b,
  forward_train_loop layer_forward layer_kl layer_kl_oracle_prior_variance
    self x y k a b h
  = (Ok (tadd a (total ks),
         tadd b (total (map (fun s => arithmetic_mean (elements s)) ss))),
     h').
Proof.
  induction 1 as [h | k h h1 h2 h' probs s kv ks ss Hf Hk Hs _ IH];
    intros a b.
  - cbn [forward_train_loop map]. unfold ret, total. cbn [fold_right].
    now rewrite !tadd_0_r.
  - cbn [forward_train_loop]. unfold bind. rewrite Hf, Hk.
    unfold lift_result. rewrite Hs, IH. rewrite tensor_mean_arithmetic.
    unfold total. cbn [map fold_right]. now rewrite !tadd_assoc.
Qed.

(** C5: for [n_samples >= 1], [forward_train] runs [n_samples] passes,
    each one ['MC'] forward, one [kl()] and one surrogate, and returns
    the arithmetic mean of the KL values of the passes and the
    arithmetic mean, over the passes, of the batch means of the
    surrogate; it leaves the state the passes leave.  The arithmetic
    mean is the sum of the values over their number. *)
Theorem forward_train_means (self : classifier) (x : tensor) (y : list Z)
    (n_samples : Z) (h : heap W) :
  (1 <= n_samples)%Z ->
  (forall ks ss h',
      passes_run layer_forward layer_kl layer_kl_oracle_prior_variance
        self x y (Z.to_nat n_samples) h ks ss h' ->
      Z.of_nat (length ks) = n_samples
      /\ Z.of_nat (length ss) = n_samples
      /\ forward_train layer_forward layer_kl layer_kl_oracle_prior_variance
           self x y n_samples h
         = (Ok (arithmetic_mean ks,
                arithmetic_mean
                  (map (fun s => arithmetic_mean (elements s)) ss)),
            h'))
  /\ (forall rs : list R, rs <> [] ->
        arithmetic_mean (map Fin rs)
        = Fin (real_total rs / INR (length rs))).
Proof.
  intros Hn. split; [ | exact arithmetic_mean_reals].
  intros ks ss h' Hrun.
  assert (Hnz : IZR n_samples <> 0) by (apply not_0_IZR; lia).
  destruct (passes_run_length _ _ _ _ _ _ _ _ Hrun) as [Hks Hss].
  split; [lia | ]. split; [lia | ].
  unfold forward_train. unfold bind at 1.
  rewrite (forward_train_loop_passes _ _ _ _ _ _ _ _ Hrun).
  unfold bind, lift_result, ret. rewrite !py_truediv_fin by assumption.
  rewrite !tadd_0_l.
  assert (Hmean : forall vs : list tnum,
             length vs = Z.to_nat n_samples ->
             arithmetic_mean vs = tdiv (total vs) (Fin (IZR n_samples))).
  { intros vs Hvs. unfold arithmetic_mean.
    now rewrite Hvs, INR_IZR_INZ, Z2Nat.id by lia. }
  rewrite (Hmean ks Hks), Hmean by now rewrite length_map.
  reflexivity.
Qed.

Lemma forward_train_without_pass (self : classifier) (x : tensor) (y : list Z)
    (n_samples : Z) (h : heap W) :
  (n_samples <= 0)%Z ->
  forward_train layer_forward layer_kl layer_kl_oracle_prior_variance
    self x y n_samples h
  = (if (n_samples =? 0)%Z then Raise ZeroDivisionError
     else Ok (Fin 0, Fin 0), h).
Proof.
  intros Hn. unfold forward_train.
  assert (Hpasses : Z.to_nat n_samples = 0%nat) by lia.
  rewrite Hpasses. cbn [forward_train_loop]. unfold bind, ret, lift_result.
  destruct (Z.eqb_spec n_samples 0) as [Hz | Hz].
  - subst. now rewrite py_truediv_zero.
  - assert (Hnz : IZR n_samples <> 0) by (apply not_0_IZR; lia).
    rewrite !py_truediv_fin by assumption. rewrite tdiv_fin by assumption.
    unfold Rdiv. now rewrite Rmult_0_l.
Qed.

(** C7 (amended): with [n_samples = 0] no pass runs and the final
    division raises [ZeroDivisionError]; with [n_samples < 0] no pass
    runs either and [forward_train] returns the pair (0, 0), with no
    error.  The state is untouched in both cases. *)
Theorem forward_train_nonpositive (self : classifier) (x : tensor) (y : list Z)
    (n_samples : Z) (h : heap W) :
  (n_samples <= 0)%Z ->
  forward_train layer_forward layer_kl layer_kl_oracle_prior_variance
    self x y n_samples h
  = (if (n_samples =? 0)%Z then Raise ZeroDivisionError
     else Ok (Fin 0, Fin 0), h).
Proof.
  apply forward_train_without_pass.
Qed.

(** *** [evaluate_on_loader] *)

Lemma evaluate_loop_training (self : classifier) (l : loader) :
  forall a b c h,
  training
    (snd (evaluate_loop layer_forward Classifier_evaluate self l a b c h))
  = training h.
Proof.
  induction l as [ | x y rest IH | e]; intros a b c h;
    [reflexivity | | reflexivity].
  cbn [evaluate_loop]. unfold bind.
  pose proof (forward_layers_training (bayesian_layers self) x "MC" h) as Hf.
  fold (forward layer_forward self x "MC" h) in Hf.
  destruct (forward layer_forward self x "MC" h) as [[probs | e] h1];
    cbn [snd] in Hf; [ | exact Hf].
  unfold lift_result.
  destruct (Classifier_evaluate probs y) as [[correct total] | e];
    [ | exact Hf].
  destruct (surrogate probs y (prob_threshold self)
              (normalize_surrogate_by_log_classes self)) as [s | e];
    [ | exact Hf].
  now rewrite IH.
Qed.

Lemma evaluate_loop_collect (self : classifier)
    (batches : list (tensor * list Z)) : forall a b c h,
  evaluate_loop layer_forward Classifier_evaluate self (loader_of batches)
    a b c h
  = bind (eval_batches layer_forward Classifier_evaluate self batches)
         (fun stats =>
            ret (fold_left tadd (map correct_count stats) a,
                 fold_left tadd (map total_count stats) b,
                 fold_left tadd (map surrogate_sum stats) c)) h.
Proof.
  induction batches as [ | [x y] batches IH]; intros a b c h; [reflexivity | ].
  cbn [loader_of evaluate_loop]. unfold eval_batches. cbn [mapM].
  unfold eval_batch at 1. unfold bind.
  destruct (forward layer_forward self x "MC" h) as [[probs | e] h1];
    [ | reflexivity].
  unfold lift_result.
  destruct (Classifier_evaluate probs y) as [[correct total] | e];
    [ | reflexivity].
  destruct (surrogate probs y (prob_threshold self)
              (normalize_surrogate_by_log_classes self)) as [s | e];
    [ | reflexivity].
  unfold ret at 1. rewrite IH. unfold bind, eval_batches.
  destruct (mapM _ batches h1) as [[stats | e] h2]; reflexivity.
Qed.

(** C1 (amended): when [evaluate_on_loader] returns, the training flag
    is the one before the call; when it raises, whether from the
    loader, a layer, the metrics helper, the surrogate or the final
    division, the flag is left in inference mode. *)
Theorem evaluate_on_loader_mode (self : classifier) (l : loader) (h : heap W) :
  match
    evaluate_on_loader layer_forward Classifier_evaluate layers_train self l h
  with
  | (Ok _, h') => training h' = training h
  | (Raise _, h') => training h' = false
  end.
Proof.
  unfold evaluate_on_loader, bind, get_training, set_training.
  pose proof (evaluate_loop_training self l (Fin 0) (Fin 0) (Fin 0)
                (mkHeap false (layers_train false (world h)))) as Hloop.
  destruct (evaluate_loop layer_forward Classifier_evaluate self l
              (Fin 0) (Fin 0) (Fin 0)
              (mkHeap false (layers_train false (world h))))
    as [[[[corrects totals] surrogates] | e] h1]; cbn [snd training] in Hloop;
    [ | exact Hloop].
  unfold lift_result.
  destruct (py_truediv corrects totals) as [ratio | e]; [ | exact Hloop].
  destruct (py_truediv surrogates totals) as [s | e]; [ | exact Hloop].
  reflexivity.
Qed.

Lemma evaluate_loop_batches (self : classifier)
    (batches : list (tensor * list Z)) (h h' : heap W)
    (corrects totals : list tnum) (ss : list tensor) :
  batches_run layer_forward Classifier_evaluate self batches h
    corrects totals ss h' ->
  forall a b c,
  evaluate_loop layer_forward Classifier_evaluate self (loader_of batches)
    a b c h
  = (Ok (tadd a (total corrects), tadd b (total totals),
         tadd c (total (concat (map elements ss)))), h').
Proof.
  induction 1 as [h | x y batches h h1 h' probs s correct total_
                      corrects totals ss Hf He Hs _ IH]; intros a b c.
  - cbn [loader_of evaluate_loop map concat]. unfold ret, total.
    cbn [fold_right]. now rewrite !tadd_0_r.
  - cbn [loader_of evaluate_loop]. unfold bind. rewrite Hf.
    unfold lift_result. rewrite He, Hs, IH. rewrite tensor_sum_total.
    cbn [map concat]. rewrite total_app, !total_cons.
    now rewrite !tadd_assoc.
Qed.

(** C9: on a loader that yields [batches] and whose total count ends
    strictly positive, [evaluate_on_loader] returns [(1 -
    corrects/totals, summed_surrogate/totals)], where the counts are
    the sums of the per-batch counts and the summed surrogate is the
    sum of the per-example surrogate values of all batches, with the
    training flag restored; on an empty loader it raises
    [ZeroDivisionError]; on a single batch whose predictions are all
    correct the error returned is 0.  The sums are sums of real
    numbers on finite values. *)
Theorem evaluate_on_loader_result (self : classifier) :
  (forall batches h corrects totals ss h' tot,
      batches_run layer_forward Classifier_evaluate self batches
        (mkHeap false (layers_train false (world h)))
        corrects totals ss h' ->
      total totals = Fin tot -> 0 < tot ->
      batches <> []
      /\ evaluate_on_loader layer_forward Classifier_evaluate layers_train self
           (loader_of batches) h
         = (Ok (tsub (Fin 1) (tdiv (total corrects) (Fin tot)),
                tdiv (total (concat (map elements ss))) (Fin tot)),
            mkHeap (training h) (layers_train (training h) (world h'))))
  /\ (forall h,
        evaluate_on_loader layer_forward Classifier_evaluate layers_train self
          Exhausted h
        = (Raise ZeroDivisionError,
           mkHeap false (layers_train false (world h))))
  /\ (forall x y h c s h',
        batches_run layer_forward Classifier_evaluate self [(x, y)]
          (mkHeap false (layers_train false (world h)))
          [Fin c] [Fin c] [s] h' ->
        0 < c ->
        evaluate_on_loader layer_forward Classifier_evaluate layers_train self
          (loader_of [(x, y)]) h
        = (Ok (Fin 0, tdiv (total (elements s)) (Fin c)),
           mkHeap (training h) (layers_train (training h) (world h'))))
  /\ (forall rs : list R, total (map Fin rs) = Fin (real_total rs)).
Proof.
  assert (Hgen : forall batches h corrects totals ss h' tot,
      batches_run layer_forward Classifier_evaluate self batches
        (mkHeap false (layers_train false (world h)))
        corrects totals ss h' ->
      total totals = Fin tot -> 0 < tot ->
      evaluate_on_loader layer_forward Classifier_evaluate layers_train self
        (loader_of batches) h
      = (Ok (tsub (Fin 1) (tdiv (total corrects) (Fin tot)),
             tdiv (total (concat (map elements ss))) (Fin tot)),
         mkHeap (training h) (layers_train (training h) (world h')))).
  { intros batches h corrects totals ss h' tot Hrun Htot Hpos.
    unfold evaluate_on_loader, bind at 1 2 3, get_training, set_training.
    rewrite (evaluate_loop_batches _ _ _ _ _ _ _ Hrun).
    rewrite !tadd_0_l, Htot. unfold bind, lift_result, ret.
    rewrite !py_truediv_fin by lra. reflexivity. }
  split; [ | split; [ | split]].
  - intros batches h corrects totals ss h' tot Hrun Htot Hpos. split.
    + intros ->. inversion Hrun; subst.
      unfold total in Htot. cbn [fold_right] in Htot. inversion Htot. lra.
    + now apply (Hgen batches h corrects totals ss h' tot).
  - intros h. unfold evaluate_on_loader, bind, get_training, set_training.
    cbn [evaluate_loop]. unfold ret, lift_result.
    now rewrite py_truediv_zero.
  - intros x y h c s h' Hrun Hpos.
    rewrite (Hgen [(x, y)] h _ _ _ h' (c + 0) Hrun); [ | reflexivity | lra].
    cbn [map concat]. rewrite app_nil_r.
    unfold total at 1. cbn [fold_right tadd].
    rewrite tdiv_fin by lra. cbn [tsub tneg tadd].
    replace (1 + - ((c + 0) / (c + 0))) with 0 by (field; lra).
    replace (c + 0) with c by ring. reflexivity.
  - apply total_reals.
Qed.

End ClassifierProofs.

(** ** Runs at explicit inputs *)

Lemma sample_classifier_constructed :
  __init__ 0 [MkModule 1 []] (1 / 2) false false = Ok sample_classifier.
Proof. reflexivity. Qed.

Lemma sample_surrogate_run :
  surrogate sample_probs sample_labels (1 / 2) false
  = Ok (column sample_surrogate).
Proof.
  apply (surrogate_on_reals 2 [[1 / 4; 3 / 4]] sample_labels (1 / 2) false).
  - repeat constructor.
  - discriminate.
  - simpl. lia.
  - repeat constructor; unfold valid_label; simpl; lia.
  - lra.
  - discriminate.
Qed.

Lemma sample_forward_run (h : heap nat) :
  forward counting_forward sample_classifier sample_probs "MC" h
  = (Ok sample_probs, mkHeap (training h) (S (world h))).
Proof. reflexivity. Qed.

Lemma sample_eval_batch_run (h : heap nat) :
  eval_batch counting_forward all_correct sample_classifier
    (sample_probs, sample_labels) h
  = (Ok (mkStats (Fin 1) (Fin 1) (tensor_sum (column sample_surrogate))),
     mkHeap (training h) (S (world h))).
Proof.
  unfold eval_batch, bind. rewrite sample_forward_run.
  unfold lift_result, all_correct. cbn [prob_threshold
    normalize_surrogate_by_log_classes sample_classifier].
  rewrite sample_surrogate_run. reflexivity.
Qed.

(** The statement of C1 fails: the loader yields one batch and then
    raises; the classifier was in training mode and is left in
    inference mode. *)
Lemma evaluate_on_loader_mode_counterexample :
  evaluate_on_loader counting_forward all_correct keep_store
    sample_classifier
    (Yield sample_probs sample_labels (Fails (OtherError 0)))
    (mkHeap true 0%nat)
  = (Raise (OtherError 0), mkHeap false 1%nat)
  /\ training (mkHeap true 0%nat) <> training (mkHeap false 1%nat).
Proof.
  split; [ | discriminate].
  unfold evaluate_on_loader, bind, get_training, set_training.
  cbn [evaluate_loop training world]. unfold bind.
  rewrite sample_forward_run. unfold lift_result, all_correct.
  cbn [prob_threshold normalize_surrogate_by_log_classes sample_classifier].
  rewrite sample_surrogate_run. reflexivity.
Qed.

Lemma sample_surrogate_value : sample_surrogate = [- ln (3 / 4)].
Proof.
  unfold sample_surrogate, true_class_probs, sample_labels.
  cbn [combine map]. change (nth (Z.to_nat 1) [1 / 4; 3 / 4] 0) with (3 / 4).
  unfold surrogate_spec, clamp_prob.
  rewrite Rmax_left by lra. now rewrite Rmin_left by lra.
Qed.

Lemma sample_surrogate_mean :
  arithmetic_mean (elements (column sample_surrogate)) = Fin (- ln (3 / 4)).
Proof.
  rewrite sample_surrogate_value. unfold arithmetic_mean, total.
  cbn [column elements data map concat List.app fold_right tadd length INR].
  rewrite tdiv_fin by lra. f_equal. field.
Qed.

Lemma sample_passes_run :
  passes_run counting_forward draws_kl double_kl sample_classifier
    sample_probs sample_labels 2 (mkHeap true 0%nat)
    [Fin (0 + INR 1); Fin (0 + INR 2)]
    [column sample_surrogate; column sample_surrogate] (mkHeap true 2%nat).
Proof.
  apply passes_run_more
    with (h1 := mkHeap true 1%nat) (h2 := mkHeap true 1%nat)
         (probs := sample_probs);
    [reflexivity | reflexivity | exact sample_surrogate_run | ].
  apply passes_run_more
    with (h1 := mkHeap true 2%nat) (h2 := mkHeap true 2%nat)
         (probs := sample_probs);
    [reflexivity | reflexivity | exact sample_surrogate_run | ].
  apply passes_run_none.
Qed.

Lemma sample_passes_means :
  arithmetic_mean [Fin (0 + INR 1); Fin (0 + INR 2)] = Fin (3 / 2)
  /\ arithmetic_mean
       (map (fun s => arithmetic_mean (elements s))
          [column sample_surrogate; column sample_surrogate])
     = Fin (- ln (3 / 4)).
Proof.
  split.
  - unfold arithmetic_mean, total. cbn [fold_right tadd length INR].
    rewrite tdiv_fin by lra. f_equal. field.
  - cbn [map]. rewrite sample_surrogate_mean.
    unfold arithmetic_mean, total. cbn [fold_right tadd length INR].
    rewrite tdiv_fin by lra. f_equal. field.
Qed.

Lemma forward_train_means_witness :
  forward_train counting_forward draws_kl double_kl sample_classifier
    sample_probs sample_labels 2 (mkHeap true 0%nat)
  = (Ok (Fin (3 / 2), Fin (- ln (3 / 4))), mkHeap true 2%nat)
  /\ arithmetic_mean (map Fin [1; 2]) = Fin (real_total [1; 2] / INR 2).
Proof.
  destruct (forward_train_means nat counting_forward draws_kl double_kl
              sample_classifier sample_probs sample_labels 2
              (mkHeap true 0%nat)) as [Hmeans Hreal]; [lia | ].
  split.
  - destruct (Hmeans _ _ _ sample_passes_run) as (_ & _ & Hrun).
    destruct sample_passes_means as [Hkl Hsurrogate].
    rewrite Hkl, Hsurrogate in Hrun. exact Hrun.
  - apply (Hreal [1; 2]). discriminate.
Defined.

Lemma pair_layer_calls :
  layer_calls uid_kl (bayesian_layers pair_classifier) 0%nat
    [Fin (INR 1); Fin (INR 2)] 0%nat.
Proof.
  apply layer_calls_cons with (w1 := 0%nat); [reflexivity | ].
  apply layer_calls_cons with (w1 := 0%nat); [reflexivity | ].
  apply layer_calls_nil.
Qed.

Lemma pair_total : total [Fin (INR 1); Fin (INR 2)] = Fin 3.
Proof.
  unfold total. cbn [fold_right tadd INR]. f_equal. ring.
Qed.

Lemma kl_sums_layers_witness :
  kl uid_kl double_kl pair_classifier (mkHeap true 0%nat)
  = (Ok (Fin 3), mkHeap true 0%nat)
  /\ snd (kl uid_kl double_kl pair_classifier (mkHeap true 0%nat))
     = mkHeap true 0%nat
  /\ forall other,
       kl uid_kl other pair_classifier (mkHeap true 0%nat)
       = kl uid_kl double_kl pair_classifier (mkHeap true 0%nat).
Proof.
  destruct (kl_sums_layers nat uid_kl double_kl pair_classifier
              (mkHeap true 0%nat)) as (Hsum & _ & Hpure & Hstd & _).
  split; [ | split].
  - destruct (Hsum _ _ pair_layer_calls) as [Hrun _].
    rewrite pair_total in Hrun. exact Hrun.
  - apply Hpure. repeat constructor.
  - apply Hstd. reflexivity.
Defined.

Lemma forward_train_nonpositive_witness :
  forward_train counting_forward unit_kl double_kl sample_classifier
    sample_probs sample_labels 0 (mkHeap true 0%nat)
  = (Raise ZeroDivisionError, mkHeap true 0%nat).
Proof.
  apply (forward_train_nonpositive nat counting_forward unit_kl double_kl
           sample_classifier sample_probs sample_labels 0 (mkHeap true 0%nat)).
  lia.
Defined.

(** The statement of C7 fails: with [n_samples = -1] the call returns
    a pair of zeros and raises nothing. *)
Lemma forward_train_nonpositive_counterexample :
  forward_train counting_forward unit_kl double_kl sample_classifier
    sample_probs sample_labels (-1) (mkHeap true 0%nat)
  = (Ok (Fin 0, Fin 0), mkHeap true 0%nat)
  /\ ~ (exists e h',
          forward_train counting_forward unit_kl double_kl sample_classifier
            sample_probs sample_labels (-1) (mkHeap true 0%nat)
          = (Raise e, h')).
Proof.
  assert (Hrun :
    forward_train counting_forward unit_kl double_kl sample_classifier
      sample_probs sample_labels (-1) (mkHeap true 0%nat)
    = (Ok (Fin 0, Fin 0), mkHeap true 0%nat)).
  { rewrite forward_train_without_pass by lia. reflexivity. }
  split; [exact Hrun | ].
  intros (e & h' & Hraise). rewrite Hrun in Hraise. discriminate.
Qed.

Lemma sample_batches_run :
  batches_run counting_forward all_correct sample_classifier
    [(sample_probs, sample_labels); (sample_probs, sample_labels)]
    (mkHeap false 0%nat) [Fin 1; Fin 1] [Fin 1; Fin 1]
    [column sample_surrogate; column sample_surrogate] (mkHeap false 2%nat).
Proof.
  apply batches_run_more
    with (h1 := mkHeap false 1%nat) (probs := sample_probs);
    [reflexivity | reflexivity | exact sample_surrogate_run | ].
  apply batches_run_more
    with (h1 := mkHeap false 2%nat) (probs := sample_probs);
    [reflexivity | reflexivity | exact sample_surrogate_run | ].
  apply batches_run_none.
Qed.

Lemma sample_batches_totals :
  total [Fin 1; Fin 1] = Fin 2
  /\ tsub (Fin 1) (tdiv (total [Fin 1; Fin 1]) (Fin 2)) = Fin 0
  /\ tdiv (total (concat (map elements
                            [column sample_surrogate;
                             column sample_surrogate]))) (Fin 2)
     = Fin (- ln (3 / 4)).
Proof.
  assert (Htotal : total [Fin 1; Fin 1] = Fin 2).
  { unfold total. cbn [fold_right tadd]. f_equal. ring. }
  split; [exact Htotal | ]. split.
  - rewrite Htotal, tdiv_fin by lra. cbn [tsub tneg tadd]. f_equal. field.
  - rewrite sample_surrogate_value. unfold total.
    cbn [column elements data map concat List.app fold_right tadd].
    rewrite tdiv_fin by lra. f_equal. field.
Qed.

Lemma evaluate_on_loader_result_witness :
  evaluate_on_loader counting_forward all_correct keep_store
    sample_classifier
    (loader_of [(sample_probs, sample_labels); (sample_probs, sample_labels)])
    (mkHeap true 0%nat)
  = (Ok (Fin 0, Fin (- ln (3 / 4))), mkHeap true 2%nat).
Proof.
  destruct (evaluate_on_loader_result nat counting_forward all_correct
              keep_store sample_classifier) as (Hgen & _).
  destruct sample_batches_totals as (Htotal & Herror & Hsurrogate).
  destruct (Hgen _ (mkHeap true 0%nat) _ _ _ _ 2 sample_batches_run Htotal)
    as [_ Hrun]; [lra | ].
  rewrite Herror, Hsurrogate in Hrun. exact Hrun.
Defined.

(** * Properties beyond the claims *)

(** ** The bounds outside their domain and against each other *)

Lemma tadd_nan_r (x : tnum) : tadd x NaN = NaN.
Proof. now destruct x. Qed.

Lemma tsqrt_negative (a : R) : a < 0 -> tsqrt (Fin a) = NaN.
Proof.
  intros Ha. simpl. destruct (Rlt_dec a 0); [reflexivity | lra].
Qed.

Lemma math_sqrt_negative (x : R) : x < 0 -> math_sqrt x = Raise ValueError.
Proof.
  intros Hx. unfold math_sqrt. destruct (Rlt_dec x 0); [reflexivity | lra].
Qed.

Lemma math_log_nonpositive (x : R) : x <= 0 -> math_log x = Raise ValueError.
Proof.
  intros Hx. unfold math_log. destruct (Rlt_dec 0 x); [lra | reflexivity].
Qed.

Lemma float_div_zero (a : R) : float_div a 0 = Raise ZeroDivisionError.
Proof.
  unfold float_div. destruct (Req_dec_T 0 0); [reflexivity | lra].
Qed.

Lemma log_prefix_domain_error (n : Z) (delta : R) :
  (n <= 0)%Z \/ delta <= 0 ->
  log_prefix n delta = Raise (domain_error n delta).
Proof.
  intros Hbad. unfold log_prefix, domain_error.
  destruct (Z.ltb_spec n 0) as [Hneg | Hnonneg].
  - rewrite math_sqrt_negative; [reflexivity | ].
    apply IZR_lt in Hneg. exact Hneg.
  - assert (H0 : 0 <= IZR n) by (apply IZR_le in Hnonneg; exact Hnonneg).
    rewrite math_sqrt_ok by assumption. cbn [rbind].
    destruct (Req_dec_T delta 0) as [Hd | Hd].
    + subst. now rewrite float_div_zero.
    + rewrite float_div_ok by assumption. cbn [rbind].
      apply math_log_nonpositive.
      pose proof (sqrt_pos (IZR n)) as Hs.
      destruct Hbad as [Hn | Hdelta].
      * assert (n = 0%Z) by lia. subst. rewrite sqrt_0.
        unfold Rdiv. rewrite Rmult_0_r, Rmult_0_l. lra.
      * assert (Hneg : delta < 0) by lra.
        assert (Hinv : / delta < 0) by now apply Rinv_lt_0_compat.
        unfold Rdiv. nra.
Qed.

Lemma quad_bound_prefix (scalar_max : Z) (risk kl : tnum) (n : Z)
    (delta : R) (e : exn) :
  log_prefix n delta = Raise e ->
  quad_bound scalar_max risk kl n delta = Raise e.
Proof.
  unfold log_prefix, quad_bound.
  destruct (math_sqrt (IZR n)) as [s | e1]; cbn [rbind];
    [ | now intros [= ->]].
  destruct (float_div (2 * s) delta) as [q | e2]; cbn [rbind];
    [ | now intros [= ->]].
  destruct (math_log q) as [l | e3]; cbn [rbind];
    [discriminate | now intros [= ->]].
Qed.

Lemma pinsker_bound_prefix (scalar_max : Z) (risk kl : tnum) (n : Z)
    (delta : R) (e : exn) :
  log_prefix n delta = Raise e ->
  pinsker_bound scalar_max risk kl n delta = Raise e.
Proof.
  unfold log_prefix, pinsker_bound.
  destruct (math_sqrt (IZR n)) as [s | e1]; cbn [rbind];
    [ | now intros [= ->]].
  destruct (float_div (2 * s) delta) as [q | e2]; cbn [rbind];
    [ | now intros [= ->]].
  destruct (math_log q) as [l | e3]; cbn [rbind];
    [discriminate | now intros [= ->]].
Qed.

(** X1: with [dataset_size <= 0] or [delta <= 0] the three bounds
    raise, whatever the risk and the KL: [ZeroDivisionError] when
    [dataset_size >= 0] and [delta = 0], [ValueError] (from
    [math.sqrt] or [math.log]) otherwise.  The integer scalar range of
    the torch build plays no part: the prefix raises first. *)
Theorem bounds_raise_outside_domain (scalar_max : Z) (risk kl : tnum) (n : Z)
    (delta : R) :
  (n <= 0)%Z \/ delta <= 0 ->
  exists e,
    quad_bound scalar_max risk kl n delta = Raise e
    /\ pinsker_bound scalar_max risk kl n delta = Raise e
    /\ inverted_kl_bound scalar_max risk kl n delta = Raise e
    /\ (e = ZeroDivisionError \/ e = ValueError)
    /\ (e = ZeroDivisionError <-> (0 <= n)%Z /\ delta = 0).
Proof.
  intros Hbad. exists (domain_error n delta).
  pose proof (log_prefix_domain_error n delta Hbad) as Hp.
  pose proof (quad_bound_prefix scalar_max risk kl n delta _ Hp) as Hq.
  split; [exact Hq | ].
  split; [now apply pinsker_bound_prefix | ].
  split; [unfold inverted_kl_bound; now rewrite Hq | ].
  unfold domain_error.
  destruct (Z.ltb_spec n 0) as [Hneg | Hnonneg].
  - split; [now right | ]. split; [discriminate | intros [H _]; lia].
  - destruct (Req_dec_T delta 0) as [Hd | Hd].
    + split; [now left | ]. split; [now split | reflexivity].
    + split; [now right | ].
      split; [discriminate | intros [_ H]; contradiction].
Qed.

Lemma bounds_raise_outside_domain_witness :
  exists e,
    quad_bound (2 ^ 63 - 1) (Fin 0) (Fin 1) 100 0 = Raise e
    /\ pinsker_bound (2 ^ 63 - 1) (Fin 0) (Fin 1) 100 0 = Raise e
    /\ inverted_kl_bound (2 ^ 63 - 1) (Fin 0) (Fin 1) 100 0 = Raise e
    /\ (e = ZeroDivisionError \/ e = ValueError)
    /\ (e = ZeroDivisionError <-> (0 <= 100)%Z /\ 0 = 0).
Proof.
  apply (bounds_raise_outside_domain (2 ^ 63 - 1) (Fin 0) (Fin 1) 100 0).
  right. lra.
Defined.

(** X2: with a positive [dataset_size] whose double fits the integer
    scalar of [Tensor.div] and a positive [delta], when [kl + log(2
    sqrt(dataset_size) / delta)] is negative (a [delta] above [2
    sqrt(dataset_size)], or a negative [kl]) nothing raises: the
    square roots are taken of a negative tensor and the three bounds
    return [nan]. *)
Theorem bounds_nan_on_negative_complexity (scalar_max : Z) (risk kl : R)
    (n : Z) (delta : R) :
  (0 < n)%Z -> (2 * n <= scalar_max)%Z -> 0 < delta ->
  kl + ln (2 * sqrt (IZR n) / delta) < 0 ->
  quad_bound scalar_max (Fin risk) (Fin kl) n delta = Ok NaN
  /\ pinsker_bound scalar_max (Fin risk) (Fin kl) n delta = Ok NaN
  /\ inverted_kl_bound scalar_max (Fin risk) (Fin kl) n delta = Ok NaN.
Proof.
  intros Hn Hfit Hd Hneg.
  pose proof (dataset_size_ge_1 n Hn) as Hge.
  assert (Hs : 0 < sqrt (IZR n)) by (apply sqrt_lt_R0; lra).
  assert (Hq : 0 < 2 * sqrt (IZR n) / delta).
  { apply Rdiv_lt_0_compat; lra. }
  assert (Hquad : quad_bound scalar_max (Fin risk) (Fin kl) n delta = Ok NaN).
  { unfold quad_bound. rewrite math_sqrt_ok by lra. cbn [rbind].
    rewrite float_div_ok by lra. cbn [rbind].
    rewrite math_log_ok by assumption. cbn [rbind].
    rewrite int_scalar_ok by lia. cbn [rbind tadd].
    rewrite mult_IZR, tdiv_fin by lra.
    rewrite (tsqrt_negative ((kl + _) / _)).
    - now rewrite tadd_nan_r.
    - assert (Hinv : 0 < / (2 * IZR n)) by (apply Rinv_0_lt_compat; lra).
      unfold Rdiv at 1. nra. }
  assert (Hpin :
    pinsker_bound scalar_max (Fin risk) (Fin kl) n delta = Ok NaN).
  { unfold pinsker_bound. rewrite math_sqrt_ok by lra. cbn [rbind].
    rewrite float_div_ok by lra. cbn [rbind].
    rewrite math_log_ok by assumption. cbn [rbind].
    rewrite int_scalar_ok by lia. cbn [rbind tadd].
    rewrite !tdiv_fin by lra.
    rewrite tsqrt_negative; [reflexivity | ].
    assert (Hinv : 0 < / IZR n) by (apply Rinv_0_lt_compat; lra).
    unfold Rdiv at 1 2. nra. }
  split; [exact Hquad | ]. split; [exact Hpin | ].
  unfold inverted_kl_bound. now rewrite Hquad, Hpin.
Qed.

Lemma bounds_nan_on_negative_complexity_witness :
  quad_bound (2 ^ 63 - 1) (Fin (1 / 10)) (Fin 0) 1 4 = Ok NaN
  /\ pinsker_bound (2 ^ 63 - 1) (Fin (1 / 10)) (Fin 0) 1 4 = Ok NaN
  /\ inverted_kl_bound (2 ^ 63 - 1) (Fin (1 / 10)) (Fin 0) 1 4 = Ok NaN.
Proof.
  apply (bounds_nan_on_negative_complexity (2 ^ 63 - 1) (1 / 10) 0 1 4);
    [lia | discriminate | lra | ].
  rewrite sqrt_1, Rplus_0_l. apply ln_neg; lra.
Defined.


Lemma half_complexity_pos (kl : R) (n : Z) (delta : R) :
  0 <= kl -> (0 < n)%Z -> 0 < delta < 1 ->
  0 < (kl + log_term (IZR n) delta) / (2 * IZR n).
Proof.
  intros Hk Hn Hd.
  pose proof (dataset_size_ge_1 n Hn) as Hge.
  pose proof (complexity_pos kl n delta Hk Hn Hd) as Hpos.
  unfold complexity in Hpos. apply Rdiv_lt_0_compat; lra.
Qed.





Lemma quad_bound_spec_in_risk (risk risk' kl : R) (n : Z) (delta : R) :
  0 <= risk -> risk <= risk' -> 0 <= kl -> (0 < n)%Z -> 0 < delta < 1 ->
  quad_bound_spec risk kl (IZR n) delta
  <= quad_bound_spec risk' kl (IZR n) delta.
Proof.
  intros Hr Hrr Hk Hn Hd. unfold quad_bound_spec.
  pose proof (half_complexity_pos kl n delta Hk Hn Hd) as Hc.
  set (c := (kl + log_term (IZR n) delta) / (2 * IZR n)) in *.
  pose proof (sqrt_pos (risk + c)) as Ha.
  pose proof (sqrt_pos c) as Hb.
  apply pow_incr. split; [lra | ].
  apply Rplus_le_compat_r, sqrt_le_1_alt. lra.
Qed.

Lemma pinsker_bound_spec_in_risk (risk risk' kl : R) (n : Z) (delta : R) :
  risk <= risk' ->
  pinsker_bound_spec risk kl (IZR n) delta
  <= pinsker_bound_spec risk' kl (IZR n) delta.
Proof.
  intros Hrr. unfold pinsker_bound_spec. lra.
Qed.

(** X4: under the conditions of the bounds and with [2 n] fitting the
    integer scalar of [Tensor.div], [inverted_kl_bound] is
    non-decreasing in the risk, and so are the two bounds it takes the
    minimum of. *)
Theorem inverted_kl_bound_in_risk (scalar_max : Z) (risk risk' kl : R)
    (n : Z) (delta : R) :
  0 <= risk -> risk <= risk' -> 0 <= kl -> (0 < n)%Z -> 0 < delta < 1 ->
  (2 * n <= scalar_max)%Z ->
  exists q q' p p' b b' : R,
    quad_bound scalar_max (Fin risk) (Fin kl) n delta = Ok (Fin q)
    /\ quad_bound scalar_max (Fin risk') (Fin kl) n delta = Ok (Fin q')
    /\ pinsker_bound scalar_max (Fin risk) (Fin kl) n delta = Ok (Fin p)
    /\ pinsker_bound scalar_max (Fin risk') (Fin kl) n delta = Ok (Fin p')
    /\ inverted_kl_bound scalar_max (Fin risk) (Fin kl) n delta = Ok (Fin b)
    /\ inverted_kl_bound scalar_max (Fin risk') (Fin kl) n delta
       = Ok (Fin b')
    /\ q <= q' /\ p <= p' /\ b <= b'.
Proof.
  intros Hr Hrr Hk Hn Hd Hfit.
  assert (Hr' : 0 <= risk') by lra.
  assert (Hfit' : (n <= scalar_max)%Z) by lia.
  exists (quad_bound_spec risk kl (IZR n) delta),
         (quad_bound_spec risk' kl (IZR n) delta),
         (pinsker_bound_spec risk kl (IZR n) delta),
         (pinsker_bound_spec risk' kl (IZR n) delta),
         (inverted_kl_bound_spec risk kl (IZR n) delta),
         (inverted_kl_bound_spec risk' kl (IZR n) delta).
  pose proof (quad_bound_spec_in_risk risk risk' kl n delta Hr Hrr Hk Hn Hd)
    as Hq.
  pose proof (pinsker_bound_spec_in_risk risk risk' kl n delta Hrr) as Hp.
  split; [now apply quad_bound_finite | ].
  split; [now apply quad_bound_finite | ].
  split; [now apply pinsker_bound_finite | ].
  split; [now apply pinsker_bound_finite | ].
  split; [now apply inverted_kl_bound_finite | ].
  split; [now apply inverted_kl_bound_finite | ].
  split; [exact Hq | ]. split; [exact Hp | ].
  unfold inverted_kl_bound_spec. apply Rmin_glb.
  - eapply Rle_trans; [apply Rmin_l | exact Hq].
  - eapply Rle_trans; [apply Rmin_r | exact Hp].
Qed.

Lemma inverted_kl_bound_in_risk_witness :
  exists q q' p p' b b' : R,
    quad_bound (2 ^ 63 - 1) (Fin (1 / 10)) (Fin 1) 4 (1 / 2) = Ok (Fin q)
    /\ quad_bound (2 ^ 63 - 1) (Fin (1 / 5)) (Fin 1) 4 (1 / 2) = Ok (Fin q')
    /\ pinsker_bound (2 ^ 63 - 1) (Fin (1 / 10)) (Fin 1) 4 (1 / 2)
       = Ok (Fin p)
    /\ pinsker_bound (2 ^ 63 - 1) (Fin (1 / 5)) (Fin 1) 4 (1 / 2)
       = Ok (Fin p')
    /\ inverted_kl_bound (2 ^ 63 - 1) (Fin (1 / 10)) (Fin 1) 4 (1 / 2)
       = Ok (Fin b)
    /\ inverted_kl_bound (2 ^ 63 - 1) (Fin (1 / 5)) (Fin 1) 4 (1 / 2)
       = Ok (Fin b')
    /\ q <= q' /\ p <= p' /\ b <= b'.
Proof.
  apply (inverted_kl_bound_in_risk (2 ^ 63 - 1) (1 / 10) (1 / 5) 1 4 (1 / 2));
    try lra; try lia; discriminate.
Defined.

(** ** The surrogate on any tensor and any threshold *)

Lemma gather_one_cases (row : list tnum) (l : Z) :
  (valid_label (length row) l
   /\ gather_one row l = Ok (nth (Z.to_nat l) row NaN))
  \/ (~ valid_label (length row) l /\ gather_one row l = Raise RuntimeError).
Proof.
  unfold gather_one, valid_label.
  destruct (Z.ltb_spec l 0) as [Hneg | Hpos].
  - right. split; [lia | reflexivity].
  - destruct (nth_error row (Z.to_nat l)) as [v | ] eqn:E.
    + left. assert (Hlt : (Z.to_nat l < length row)%nat).
      { apply nth_error_Some. congruence. }
      split; [lia | ].
      rewrite (nth_error_nth' row NaN Hlt) in E. congruence.
    + right. apply nth_error_None in E. split; [lia | reflexivity].
Qed.

Lemma gather_entries (n : nat) (y : list Z) : forall rows : list (list tnum),
  Forall (fun row => length row = n) rows ->
  (length y <= length rows)%nat ->
  Forall (valid_label n) y ->
  gather rows (map (fun label => [label]) y)
  = Ok (map (fun v => [v]) (true_class_entries rows y)).
Proof.
  induction y as [ | l y IH]; intros rows Hwf Hlen Hy.
  - destruct rows; reflexivity.
  - destruct rows as [ | row rows]; [simpl in Hlen; lia | ].
    inversion Hwf as [ | ? ? Hrow Hrows]; subst.
    inversion Hy as [ | ? ? Hl Hy']; subst.
    cbn [map gather mapR].
    destruct (gather_one_cases row l) as [[_ Hg] | [Hbad _]];
      [ | contradiction].
    rewrite Hg. cbn [rbind].
    rewrite IH; [reflexivity | assumption | simpl in Hlen; lia | assumption].
Qed.

Lemma gather_invalid_label (n : nat) (y : list Z) :
  forall rows : list (list tnum),
  Forall (fun row => length row = n) rows ->
  Exists (fun l => ~ valid_label n l) y ->
  gather rows (map (fun label => [label]) y) = Raise RuntimeError.
Proof.
  induction y as [ | l y IH]; intros rows Hwf Hex; [inversion Hex | ].
  destruct rows as [ | row rows]; [reflexivity | ].
  inversion Hwf as [ | ? ? Hrow Hrows]; subst.
  cbn [map gather mapR].
  destruct (gather_one_cases row l) as [[Hok Hg] | [_ Hg]]; rewrite Hg;
    cbn [rbind]; [ | reflexivity].
  inversion Hex as [? ? Hbad | ? ? Hex']; subst; [contradiction | ].
  now rewrite IH.
Qed.

(** X5: a label outside [0, num_classes) anywhere in the batch makes
    [surrogate] raise the [RuntimeError] of [gather]; no loss is
    returned for the other examples. *)
Theorem surrogate_rejects_invalid_label (probs : tensor) (y : list Z) (t : R)
    (norm : bool) :
  well_shaped probs ->
  Exists (fun l => ~ valid_label (shape1 probs) l) y ->
  surrogate probs y t norm = Raise RuntimeError.
Proof.
  intros Hwf Hex. unfold surrogate.
  assert (Hview : view_column y = Ok (map (fun label => [label]) y)).
  { destruct y; [inversion Hex | reflexivity]. }
  rewrite Hview. cbn [rbind].
  now rewrite (gather_invalid_label (shape1 probs) y (data probs) Hwf Hex).
Qed.

Lemma surrogate_rejects_invalid_label_witness :
  surrogate sample_probs [2%Z] (1 / 2) false = Raise RuntimeError
  /\ surrogate (real_tensor 2 [[1 / 4; 3 / 4]; [1 / 2; 1 / 2]]) [1%Z; 2%Z]
       (1 / 2) false
     = Raise RuntimeError.
Proof.
  split.
  - apply (surrogate_rejects_invalid_label sample_probs [2%Z] (1 / 2) false).
    + repeat constructor.
    + apply Exists_cons_hd. unfold valid_label. simpl. lia.
  - apply (surrogate_rejects_invalid_label
             (real_tensor 2 [[1 / 4; 3 / 4]; [1 / 2; 1 / 2]]) [1%Z; 2%Z]
             (1 / 2) false).
    + repeat constructor.
    + apply Exists_cons_tl, Exists_cons_hd. unfold valid_label. simpl. lia.
Defined.

Lemma concat_singletons {A B} (g : A -> B) (l : list A) :
  concat (map (fun v => [g v]) l) = map g l.
Proof.
  induction l as [ | a l IH]; [reflexivity | ]. simpl. now rewrite IH.
Qed.

Lemma valid_label_classes (n : nat) (y : list Z) :
  y <> [] -> Forall (valid_label n) y -> 0 < INR n.
Proof.
  intros Hne Hy. destruct y as [ | l y]; [contradiction | ].
  inversion Hy as [ | ? ? [Hlo Hhi] _]; subst.
  apply lt_0_INR. lia.
Qed.

(** What [surrogate] returns on a well-shaped tensor and in-range
    labels, entry by entry, with no condition on the entries or on the
    threshold. *)
Lemma surrogate_elementwise (probs : tensor) (y : list Z) (t : R)
    (norm : bool) :
  well_shaped probs ->
  y <> [] -> (length y <= length (data probs))%nat ->
  Forall (valid_label (shape1 probs)) y ->
  surrogate probs y t norm
  = Ok (mkTensor 1
          (map (fun v => [surrogate_entry t norm (shape1 probs) v])
               (true_class_entries (data probs) y))).
Proof.
  intros Hwf Hne Hlen Hy. unfold surrogate.
  assert (Hview : view_column y = Ok (map (fun label => [label]) y)).
  { destruct y; [contradiction | reflexivity]. }
  rewrite Hview. cbn [rbind].
  rewrite (gather_entries (shape1 probs) y (data probs) Hwf Hlen Hy).
  cbn [rbind]. unfold surrogate_entry. destruct norm.
  - rewrite math_log_ok by (eapply valid_label_classes; eassumption).
    cbn [rbind]. now rewrite !map_map.
  - now rewrite !map_map.
Qed.

Lemma true_class_entries_length (rows : list (list tnum)) (y : list Z) :
  (length y <= length rows)%nat ->
  length (true_class_entries rows y) = length y.
Proof.
  intros Hlen. unfold true_class_entries.
  rewrite length_map, length_combine. lia.
Qed.

(** The examples of the batch one by one: the loss of example [i] is
    [surrogate_entry] of its gathered entry. *)
Lemma surrogate_example (probs : tensor) (y : list Z) (t : R) (norm : bool) :
  well_shaped probs ->
  y <> [] -> (length y <= length (data probs))%nat ->
  Forall (valid_label (shape1 probs)) y ->
  exists out,
    surrogate probs y t norm = Ok out
    /\ length (elements out) = length y
    /\ forall i, (i < length y)%nat ->
         nth i (elements out) NaN
         = surrogate_entry t norm (shape1 probs)
             (nth i (true_class_entries (data probs) y) NaN).
Proof.
  intros Hwf Hne Hlen Hy. eexists.
  split; [now apply surrogate_elementwise | ].
  unfold elements. cbn [data]. rewrite concat_singletons.
  split.
  - rewrite length_map. now apply true_class_entries_length.
  - intros i Hi.
    rewrite (nth_indep _ NaN (surrogate_entry t norm (shape1 probs) NaN)).
    + apply map_nth.
    + rewrite length_map, true_class_entries_length; assumption.
Qed.

Lemma surrogate_entry_nan (t : R) (norm : bool) (n : nat) :
  surrogate_entry t norm n NaN = NaN.
Proof. now destruct norm. Qed.

Lemma tdiv_pinf_pos (d : R) : 0 < d -> tdiv PInf (Fin d) = PInf.
Proof.
  intros Hd. simpl. destruct (Rlt_dec d 0); [lra | reflexivity].
Qed.

Lemma tlog_zero : tlog (Fin 0) = NInf.
Proof.
  simpl. destruct (Rlt_dec 0 0); [lra | ].
  destruct (Req_dec_T 0 0); [reflexivity | lra].
Qed.

Lemma surrogate_entry_zero_unprotected (t : R) (norm : bool) (n : nat) :
  t <= 0 -> (norm = true -> (2 <= n)%nat) ->
  surrogate_entry t norm n (Fin 0) = PInf.
Proof.
  intros Ht Hn. unfold surrogate_entry. cbn [tclamp].
  rewrite Rmax_left by assumption. rewrite Rmin_left by lra.
  rewrite tlog_zero. cbn [tneg]. destruct norm; [ | reflexivity].
  apply tdiv_pinf_pos, log_classes_pos. now apply Hn.
Qed.

Lemma surrogate_entry_threshold_above_one (t : R) (norm : bool) (n : nat)
    (p : R) :
  1 <= t -> (norm = true -> (2 <= n)%nat) ->
  surrogate_entry t norm n (Fin p) = Fin 0.
Proof.
  intros Ht Hn. unfold surrogate_entry. cbn [tclamp].
  assert (Hm : 1 <= Rmax p t) by (pose proof (Rmax_r p t); lra).
  rewrite Rmin_right by assumption.
  rewrite tlog_fin by lra. rewrite ln_1. cbn [tneg]. rewrite Ropp_0.
  destruct norm; [ | reflexivity].
  pose proof (log_classes_pos n (Hn eq_refl)) as Hlog.
  rewrite tdiv_fin by lra. f_equal. unfold Rdiv. apply Rmult_0_l.
Qed.

(** X6: a [nan] at an example's label goes through the clamp, the log
    and the division: that example's loss is [nan], and nothing
    raises. *)
Theorem surrogate_nan_entry (probs : tensor) (y : list Z) (t : R)
    (norm : bool) (i : nat) :
  well_shaped probs ->
  (length y <= length (data probs))%nat ->
  Forall (valid_label (shape1 probs)) y ->
  (i < length y)%nat ->
  nth i (true_class_entries (data probs) y) (Fin 0) = NaN ->
  exists out,
    surrogate probs y t norm = Ok out
    /\ length (elements out) = length y
    /\ nth i (elements out) (Fin 0) = NaN.
Proof.
  intros Hwf Hlen Hy Hi Hnan.
  assert (Hne : y <> []) by (destruct y; [simpl in Hi; lia | discriminate]).
  destruct (surrogate_example probs y t norm Hwf Hne Hlen Hy)
    as (out & Hrun & Hsize & Hout).
  exists out. split; [exact Hrun | ]. split; [exact Hsize | ].
  rewrite (nth_indep _ (Fin 0) NaN) by lia. rewrite (Hout i Hi).
  rewrite (nth_indep _ NaN (Fin 0))
    by (rewrite true_class_entries_length; assumption).
  rewrite Hnan. apply surrogate_entry_nan.
Qed.

Lemma surrogate_nan_entry_witness :
  exists out,
    surrogate (mkTensor 2 [[Fin (1 / 2); NaN]]) [1%Z] (1 / 2) false = Ok out
    /\ length (elements out) = length [1%Z]
    /\ nth 0 (elements out) (Fin 0) = NaN.
Proof.
  apply (surrogate_nan_entry (mkTensor 2 [[Fin (1 / 2); NaN]]) [1%Z]
           (1 / 2) false 0).
  - repeat constructor.
  - simpl. lia.
  - repeat constructor; unfold valid_label; simpl; lia.
  - simpl. lia.
  - reflexivity.
Defined.

(** X7: with a threshold that is not positive the clamp no longer
    keeps the log away from zero: an example whose true-class
    probability is exactly 0 gets the loss [+inf], with no
    exception (with normalisation, for at least two classes). *)
Theorem surrogate_zero_probability_unprotected (probs : tensor) (y : list Z)
    (t : R) (norm : bool) (i : nat) :
  well_shaped probs ->
  (length y <= length (data probs))%nat ->
  Forall (valid_label (shape1 probs)) y ->
  t <= 0 -> (norm = true -> (2 <= shape1 probs)%nat) ->
  (i < length y)%nat ->
  nth i (true_class_entries (data probs) y) NaN = Fin 0 ->
  exists out,
    surrogate probs y t norm = Ok out
    /\ length (elements out) = length y
    /\ nth i (elements out) (Fin 0) = PInf.
Proof.
  intros Hwf Hlen Hy Ht Hn Hi Hzero.
  assert (Hne : y <> []) by (destruct y; [simpl in Hi; lia | discriminate]).
  destruct (surrogate_example probs y t norm Hwf Hne Hlen Hy)
    as (out & Hrun & Hsize & Hout).
  exists out. split; [exact Hrun | ]. split; [exact Hsize | ].
  rewrite (nth_indep _ (Fin 0) NaN) by lia. rewrite (Hout i Hi), Hzero.
  now apply surrogate_entry_zero_unprotected.
Qed.

Lemma surrogate_zero_probability_unprotected_witness :
  exists out,
    surrogate (real_tensor 2 [[1; 0]]) [1%Z] 0 false = Ok out
    /\ length (elements out) = length [1%Z]
    /\ nth 0 (elements out) (Fin 0) = PInf.
Proof.
  apply (surrogate_zero_probability_unprotected (real_tensor 2 [[1; 0]])
           [1%Z] 0 false 0).
  - repeat constructor.
  - simpl. lia.
  - repeat constructor; unfold valid_label; simpl; lia.
  - lra.
  - discriminate.
  - simpl. lia.
  - reflexivity.
Defined.

Lemma true_class_entries_real (n : nat) (y : list Z) :
  forall rows : list (list R),
  Forall (fun row => length row = n) rows ->
  Forall (valid_label n) y ->
  true_class_entries (map (map Fin) rows) y
  = map Fin (true_class_probs rows y).
Proof.
  unfold true_class_entries, true_class_probs.
  induction y as [ | l y IH]; intros rows Hwf Hy.
  - destruct rows; reflexivity.
  - destruct rows as [ | row rows]; [reflexivity | ].
    inversion Hwf as [ | ? ? Hrow Hrows]; subst.
    inversion Hy as [ | ? ? [Hlo Hhi] Hy']; subst.
    cbn [map combine]. rewrite IH by assumption. f_equal.
    rewrite (nth_indep _ NaN (Fin 0)) by (rewrite length_map; lia).
    apply map_nth.
Qed.

(** X8: with a threshold of 1 or more the clamp sends every finite
    probability to 1, and [surrogate] returns the loss 0 for every
    example, whatever the probabilities (with normalisation, for at
    least two classes). *)
Theorem surrogate_threshold_above_one (n : nat) (rows : list (list R))
    (y : list Z) (t : R) (norm : bool) :
  Forall (fun row => length row = n) rows ->
  y <> [] -> (length y <= length rows)%nat ->
  Forall (valid_label n) y ->
  1 <= t -> (norm = true -> (2 <= n)%nat) ->
  surrogate (real_tensor n rows) y t norm
  = Ok (column (map (fun _ => 0) (true_class_probs rows y))).
Proof.
  intros Hwf Hne Hlen Hy Ht Hn.
  rewrite surrogate_elementwise.
  - cbn [real_tensor data shape1].
    rewrite (true_class_entries_real n y rows Hwf Hy).
    unfold column. rewrite !map_map. do 2 f_equal.
    apply map_ext. intros p.
    now rewrite surrogate_entry_threshold_above_one.
  - unfold well_shaped. cbn [real_tensor data shape1].
    apply Forall_map. eapply Forall_impl; [ | exact Hwf].
    intros row Hrow. now rewrite length_map.
  - exact Hne.
  - cbn [real_tensor data]. now rewrite length_map.
  - exact Hy.
Qed.

Lemma surrogate_threshold_above_one_witness :
  surrogate (real_tensor 2 [[1 / 4; 3 / 4]]) [0%Z] 1 true
  = Ok (column (map (fun _ => 0) (true_class_probs [[1 / 4; 3 / 4]] [0%Z]))).
Proof.
  apply (surrogate_threshold_above_one 2 [[1 / 4; 3 / 4]] [0%Z] 1 true).
  - repeat constructor.
  - discriminate.
  - simpl. lia.
  - repeat constructor; unfold valid_label; simpl; lia.
  - lra.
  - intros _. lia.
Defined.

Lemma clamp_prob_mono (t p p' : R) :
  p <= p' -> clamp_prob t p <= clamp_prob t p'.
Proof.
  intros Hp. unfold clamp_prob.
  apply Rle_min_compat_r. now apply Rle_max_compat_r.
Qed.

Lemma surrogate_spec_antitone (t : R) (norm : bool) (n : nat) (p p' : R) :
  0 < t < 1 -> (norm = true -> (2 <= n)%nat) -> p <= p' ->
  surrogate_spec t norm n p' <= surrogate_spec t norm n p.
Proof.
  intros Ht Hn Hp.
  pose proof (clamp_prob_range t p Ht) as [Hlo _].
  pose proof (clamp_prob_mono t p p' Hp) as Hc.
  assert (Hln : ln (clamp_prob t p) <= ln (clamp_prob t p'))
    by (apply ln_le_mono; lra).
  unfold surrogate_spec. destruct norm; [ | lra].
  pose proof (log_classes_pos n (Hn eq_refl)) as Hlog.
  assert (Hinv : 0 < / ln (INR n)) by now apply Rinv_0_lt_compat.
  unfold Rdiv. nra.
Qed.

Lemma Forall2_map_antitone (f : R -> R) (l l' : list R) :
  (forall p p', p <= p' -> f p' <= f p) ->
  Forall2 Rle l l' ->
  Forall2 (fun v v' => v' <= v) (map f l) (map f l').
Proof.
  intros Hf. induction 1; constructor; auto.
Qed.

(** X9: the loss falls as the true-class probability rises: on two
    probability matrices with the same labels, where every example's
    true-class probability in the second is at least the one in the
    first, every loss of the second is at most the one of the
    first. *)
Theorem surrogate_antitone (n : nat) (rows rows' : list (list R))
    (y : list Z) (t : R) (norm : bool) :
  Forall (fun row => length row = n) rows ->
  Forall (fun row => length row = n) rows' ->
  y <> [] -> (length y <= length rows)%nat -> (length y <= length rows')%nat ->
  Forall (valid_label n) y ->
  0 < t < 1 -> (norm = true -> (2 <= n)%nat) ->
  Forall2 Rle (true_class_probs rows y) (true_class_probs rows' y) ->
  exists vs vs',
    surrogate (real_tensor n rows) y t norm = Ok (column vs)
    /\ surrogate (real_tensor n rows') y t norm = Ok (column vs')
    /\ Forall2 (fun v v' => v' <= v) vs vs'.
Proof.
  intros Hwf Hwf' Hne Hlen Hlen' Hy Ht Hn Hle.
  exists (map (surrogate_spec t norm n) (true_class_probs rows y)),
         (map (surrogate_spec t norm n) (true_class_probs rows' y)).
  split; [now apply surrogate_on_reals | ].
  split; [now apply surrogate_on_reals | ].
  apply Forall2_map_antitone; [ | exact Hle].
  intros p p'. now apply surrogate_spec_antitone.
Qed.

Lemma surrogate_antitone_witness :
  exists vs vs',
    surrogate (real_tensor 2 [[3 / 4; 1 / 4]]) [1%Z] (1 / 10) false
    = Ok (column vs)
    /\ surrogate (real_tensor 2 [[1 / 4; 3 / 4]]) [1%Z] (1 / 10) false
       = Ok (column vs')
    /\ Forall2 (fun v v' => v' <= v) vs vs'.
Proof.
  apply (surrogate_antitone 2 [[3 / 4; 1 / 4]] [[1 / 4; 3 / 4]] [1%Z]
           (1 / 10) false).
  - repeat constructor.
  - repeat constructor.
  - discriminate.
  - simpl. lia.
  - simpl. lia.
  - repeat constructor; unfold valid_label; simpl; lia.
  - lra.
  - discriminate.
  - repeat constructor. simpl. lra.
Defined.

(** ** What the introspection of [__init__] recovers, on any list *)

Lemma nn_module_nested_ind (P : nn_module -> Prop) :
  (forall u kids, Forall (fun kv => P (snd kv)) kids -> P (MkModule u kids)) ->
  forall m, P m.
Proof.
  intros Hstep. fix IH 1. intros [u kids]. apply Hstep.
  induction kids as [ | [name k] kids IHkids]; constructor.
  - apply IH.
  - exact IHkids.
Qed.

Lemma existsb_eqb_true (u : nat) (memo : list nat) :
  existsb (Nat.eqb u) memo = true -> In u memo.
Proof.
  intros E. apply existsb_exists in E as (x & Hin & Hx).
  apply Nat.eqb_eq in Hx. now subst.
Qed.

Lemma existsb_eqb_not_in (u : nat) (memo : list nat) :
  existsb (Nat.eqb u) memo = false -> ~ In u memo.
Proof.
  intros E Hin.
  assert (Htrue : existsb (Nat.eqb u) memo = true).
  { apply existsb_exists. exists u. split; [exact Hin | apply Nat.eqb_refl]. }
  congruence.
Qed.

Lemma fresh_walk_children (prefix : string) (ks : list (string * nn_module)) :
  Forall (fun kv => forall memo p,
            fresh_walk memo (named_modules (snd kv) memo p)) ks ->
  forall memo, fresh_walk memo (named_children prefix ks memo).
Proof.
  induction 1 as [ | [name k] ks Hk _ IH]; intros memo.
  - cbn [named_children]. unfold fresh_walk, uids. cbn [fst snd map].
    split; [constructor | ]. split; [intros u [] | ]. intros u. cbn [In]. tauto.
  - cbn [named_children]. cbn [snd] in Hk.
    match goal with
    | |- context [named_modules k memo ?sp] => specialize (Hk memo sp);
        destruct (named_modules k memo sp) as [r1 memo1]
    end.
    specialize (IH memo1).
    destruct (named_children prefix ks memo1) as [r2 memo2].
    destruct Hk as (Hnd1 & Hnew1 & Hmemo1).
    destruct IH as (Hnd2 & Hnew2 & Hmemo2).
    unfold fresh_walk, uids in *. cbn [fst snd] in *.
    rewrite map_app.
    split; [ | split].
    + apply NoDup_app; trivial.
      intros u Hu1 Hu2. apply (Hnew2 u Hu2). apply Hmemo1. now left.
    + intros u Hu. apply in_app_or in Hu as [Hu | Hu].
      * now apply Hnew1.
      * intros Hin. apply (Hnew2 u Hu). apply Hmemo1. now right.
    + intros u. rewrite Hmemo2, Hmemo1, in_app_iff. tauto.
Qed.

Lemma fresh_walk_module (m : nn_module) :
  forall memo p, fresh_walk memo (named_modules m memo p).
Proof.
  induction m as [u kids IH] using nn_module_nested_ind. intros memo p.
  rewrite named_modules_unfold.
  destruct (existsb (Nat.eqb u) memo) eqn:E.
  - unfold fresh_walk, uids. cbn [fst snd map].
    split; [constructor | ]. split; [intros v [] | ]. intros v. cbn [In]. tauto.
  - apply existsb_eqb_not_in in E.
    pose proof (fresh_walk_children p kids IH (u :: memo)) as Hkids.
    destruct (named_children p kids (u :: memo)) as [r memo'].
    destruct Hkids as (Hnd & Hnew & Hmemo).
    unfold fresh_walk, uids in *. cbn [fst snd map uid] in *.
    split; [ | split].
    + constructor; [ | exact Hnd].
      intros Hin. apply (Hnew u Hin). now left.
    + intros v [Hv | Hv].
      * now subst.
      * intros Hin. apply (Hnew v Hv). now right.
    + intros v. rewrite Hmemo. cbn [In]. tauto.
Qed.

(** Every object of the list walked is visited in the end. *)
Lemma named_children_visits (prefix : string)
    (ks : list (string * nn_module)) : forall memo kv,
  In kv ks -> In (uid (snd kv)) (snd (named_children prefix ks memo)).
Proof.
  induction ks as [ | [name k] ks IH]; intros memo kv Hin; [inversion Hin | ].
  cbn [named_children].
  match goal with
  | |- context [named_modules k memo ?sp] =>
      pose proof (fresh_walk_module k memo sp) as Hk;
      pose proof (named_modules_unfold (uid k) (children k) memo sp) as Hu;
      destruct (named_modules k memo sp) as [r1 memo1] eqn:E1
  end.
  pose proof (fresh_walk_children prefix ks
                (proj2 (Forall_forall _ _)
                   (fun kv _ => fresh_walk_module (snd kv))) memo1) as Hks.
  specialize (IH memo1).
  destruct (named_children prefix ks memo1) as [r2 memo2].
  cbn [snd] in *. destruct Hks as (_ & _ & Hmemo2).
  destruct Hin as [<- | Hin]; [ | now apply IH].
  cbn [snd]. apply Hmemo2. right.
  destruct k as [u kids]. cbn [uid children] in *.
  rewrite E1 in Hu. destruct Hk as (_ & _ & Hmemo1). cbn [fst snd] in Hmemo1.
  destruct (existsb (Nat.eqb u) memo) eqn:E.
  - apply existsb_eqb_true in E. inversion Hu; subst. exact E.
  - destruct (named_children _ kids (u :: memo)) as [r memo'].
    inversion Hu; subst. apply Hmemo1. left. unfold uids. cbn. now left.
Qed.

Lemma prefix_app (pat : string) : forall s s',
  String.prefix pat s = true -> String.prefix pat (s ++ s') = true.
Proof.
  induction pat as [ | a pat IH]; intros s s' H.
  - now destruct (s ++ s')%string.
  - destruct s as [ | b s]; [discriminate | ].
    cbn [String.append String.prefix] in *.
    destruct (ascii_dec a b); [now apply IH | discriminate].
Qed.

Lemma contains_app (pat : string) (s s' : string) :
  contains pat s = true -> contains pat (s ++ s') = true.
Proof.
  induction s as [ | b s IH]; intros H.
  - cbn [contains] in H. destruct (String.prefix pat "") eqn:E;
      [ | discriminate].
    pose proof (prefix_app pat "" s' E) as Hp.
    destruct (String.append "" s') as [ | c r] eqn:Es; cbn [contains];
      now rewrite Hp.
  - cbn [contains] in H. cbn [String.append contains].
    destruct (String.prefix pat (String b s)) eqn:E.
    + pose proof (prefix_app pat (String b s) s' E) as Hp.
      cbn [String.append] in Hp. now rewrite Hp.
    + destruct (String.prefix pat (String b (s ++ s'))); [reflexivity | ].
      now apply IH.
Qed.

Lemma marked_children (prefix : string) (ks : list (string * nn_module)) :
  Forall (fun kv => forall memo p, has_marker p = true ->
            Forall (fun nm => has_marker (fst nm) = true)
                   (fst (named_modules (snd kv) memo p))) ks ->
  Forall (fun kv =>
            has_marker (prefix ++ (if String.eqb prefix "" then "" else ".")
                               ++ fst kv) = true) ks ->
  forall memo,
  Forall (fun nm => has_marker (fst nm) = true)
         (fst (named_children prefix ks memo)).
Proof.
  induction 1 as [ | [name k] ks Hk _ IH]; intros Hnames memo;
    [constructor | ].
  inversion Hnames as [ | ? ? Hname Hnames']; subst.
  cbn [named_children]. cbn [snd fst] in Hk, Hname.
  specialize (Hk memo _ Hname).
  destruct (named_modules k memo _) as [r1 memo1].
  specialize (IH Hnames' memo1).
  destruct (named_children prefix ks memo1) as [r2 memo2].
  cbn [fst] in *. apply Forall_app. now split.
Qed.

Lemma marked_module (m : nn_module) :
  forall memo p, has_marker p = true ->
  Forall (fun nm => has_marker (fst nm) = true) (fst (named_modules m memo p)).
Proof.
  induction m as [u kids IH] using nn_module_nested_ind. intros memo p Hp.
  rewrite named_modules_unfold.
  destruct (existsb (Nat.eqb u) memo); [constructor | ].
  assert (Hkids : Forall (fun nm => has_marker (fst nm) = true)
                         (fst (named_children p kids (u :: memo)))).
  { apply marked_children; [exact IH | ].
    apply Forall_forall. intros kv _. unfold has_marker.
    now apply contains_app. }
  destruct (named_children p kids (u :: memo)) as [r memo'].
  cbn [fst] in *. now constructor.
Qed.

Lemma enumerate_named_marked (layers : list nn_module) : forall i,
  Forall (fun kv => has_marker ("" ++ "" ++ fst kv) = true)
         (enumerate_named i layers).
Proof.
  induction layers as [ | l layers IH]; intros i; constructor.
  - cbn [fst String.append]. unfold has_marker, layer_name.
    apply contains_marker_layer_prefix.
  - apply IH.
Qed.

Lemma filter_all {A} (f : A -> bool) (l : list A) :
  Forall (fun a => f a = true) l -> filter f l = l.
Proof.
  induction 1 as [ | a l Ha _ IH]; [reflexivity | ].
  cbn [filter]. now rewrite Ha, IH.
Qed.

(** [__init__] on any list: the modules registered and the list
    recovered, which is all that [named_modules] yields below the
    classifier. *)
Lemma init_recovered_walk (self_id : nat) (layers : list nn_module) (t : R)
    (norm oracle : bool) :
  exists c,
    __init__ self_id layers t norm oracle = Ok c
    /\ self_module c = MkModule self_id (enumerate_named 0 layers)
    /\ fst (named_modules (self_module c) [] "")
       = (""%string, self_module c)
           :: fst (named_children "" (enumerate_named 0 layers) [self_id])
    /\ bayesian_layers c
       = map snd (fst (named_children "" (enumerate_named 0 layers)
                         [self_id])).
Proof.
  unfold __init__. rewrite register_layers_fresh by constructor.
  cbn [rbind List.app]. eexists. split; [reflexivity | ].
  cbn [self_module bayesian_layers]. split; [reflexivity | ].
  unfold recover_layers. rewrite named_modules_unfold. cbn [existsb].
  pose proof (marked_children "" (enumerate_named 0 layers)
                (proj2 (Forall_forall _ _) (fun kv _ => marked_module (snd kv)))
                (enumerate_named_marked layers 0) [self_id]) as Hmark.
  destruct (named_children "" (enumerate_named 0 layers) [self_id])
    as [r memo].
  cbn [fst] in *. split; [reflexivity | ].
  cbn [filter fst]. change (contains "bayesian_layer" "") with false.
  cbn iota. unfold has_marker in Hmark. now rewrite (filter_all _ r Hmark).
Qed.

(** X11: the name test of [__init__] excludes nothing but the
    classifier itself: on every list of layers, the recovered list is
    everything [named_modules()] yields after its first item, the
    classifier, child modules of the layers included. *)
Theorem init_takes_every_descendant (self_id : nat) (layers : list nn_module)
    (t : R) (norm oracle : bool) :
  exists c,
    __init__ self_id layers t norm oracle = Ok c
    /\ bayesian_layers c
       = map snd (tl (fst (named_modules (self_module c) [] ""))).
Proof.
  destruct (init_recovered_walk self_id layers t norm oracle)
    as (c & Hc & _ & Hwalk & Hrec).
  exists c. split; [exact Hc | ]. now rewrite Hwalk, Hrec.
Qed.

(** X12: on every list of layers, the recovered list holds no object
    twice and never the classifier itself: a layer supplied several
    times is applied once per forward. *)
Theorem init_recovers_distinct_objects (self_id : nat)
    (layers : list nn_module) (t : R) (norm oracle : bool) :
  exists c,
    __init__ self_id layers t norm oracle = Ok c
    /\ NoDup (map uid (bayesian_layers c))
    /\ ~ In self_id (map uid (bayesian_layers c)).
Proof.
  destruct (init_recovered_walk self_id layers t norm oracle)
    as (c & Hc & _ & _ & Hrec).
  exists c. split; [exact Hc | ]. rewrite Hrec, map_map.
  pose proof (fresh_walk_children "" (enumerate_named 0 layers)
                (proj2 (Forall_forall _ _)
                   (fun kv _ => fresh_walk_module (snd kv))) [self_id])
    as (Hnd & Hnew & _).
  unfold uids in *. split; [exact Hnd | ].
  intros Hin. apply (Hnew self_id Hin). now left.
Qed.

(** X13: no supplied layer is lost: every layer of the list given to
    [__init__] (other than the classifier itself) is in the recovered
    list. *)
Theorem init_keeps_every_layer (self_id : nat) (layers : list nn_module)
    (t : R) (norm oracle : bool) :
  exists c,
    __init__ self_id layers t norm oracle = Ok c
    /\ forall layer, In layer layers -> uid layer <> self_id ->
         In (uid layer) (map uid (bayesian_layers c)).
Proof.
  destruct (init_recovered_walk self_id layers t norm oracle)
    as (c & Hc & _ & _ & Hrec).
  exists c. split; [exact Hc | ]. intros layer Hin Hself.
  rewrite Hrec, map_map.
  assert (Hkv : exists name, In (name, layer) (enumerate_named 0 layers)).
  { clear - Hin. generalize 0%nat.
    induction layers as [ | l layers IH]; intros i; [inversion Hin | ].
    destruct Hin as [-> | Hin].
    - exists (layer_name i). now left.
    - destruct (IH Hin (S i)) as [name Hname]. exists name. now right. }
  destruct Hkv as [name Hkv].
  pose proof (named_children_visits "" (enumerate_named 0 layers) [self_id]
                (name, layer) Hkv) as Hvisit.
  pose proof (fresh_walk_children "" (enumerate_named 0 layers)
                (proj2 (Forall_forall _ _)
                   (fun kv _ => fresh_walk_module (snd kv))) [self_id])
    as (_ & _ & Hmemo).
  apply Hmemo in Hvisit. cbn [snd] in Hvisit.
  destruct Hvisit as [Hyield | [Heq | []]]; [exact Hyield | ].
  now symmetry in Heq.
Qed.

Lemma init_keeps_every_layer_witness :
  exists c,
    __init__ 0 [MkModule 1 []; MkModule 1 []] (1 / 2) false false = Ok c
    /\ In (uid (MkModule 1 [])) (map uid (bayesian_layers c)).
Proof.
  destruct (init_keeps_every_layer 0 [MkModule 1 []; MkModule 1 []]
              (1 / 2) false false) as (c & Hc & Hin).
  exists c. split; [exact Hc | ]. apply Hin.
  - now left.
  - discriminate.
Defined.

Lemma enumerate_named_fst (layers : list nn_module) : forall i,
  map fst (enumerate_named i layers)
  = map layer_name (seq i (length layers)).
Proof.
  induction layers as [ | l layers IH]; intros i; [reflexivity | ].
  cbn [enumerate_named map fst length seq]. now rewrite IH.
Qed.

Lemma NoDup_layer_names (l : list nat) :
  NoDup l -> NoDup (map layer_name l).
Proof.
  induction 1 as [ | i l Hnot _ IH]; cbn [map]; constructor; [ | exact IH].
  intros Hin. apply in_map_iff in Hin as (j & Heq & Hj).
  apply layer_name_inj in Heq. now subst.
Qed.

(** X14: the registration loop of [__init__] never raises and never
    overwrites: the k-th layer is registered under
    ['bayesian_layer' + str(k)], in order, and the names are pairwise
    distinct. *)
Theorem registration_names (layers : list nn_module) :
  exists mods,
    register_layers 0 layers [] = Ok mods
    /\ map snd mods = layers
    /\ map fst mods = map layer_name (seq 0 (length layers))
    /\ NoDup (map fst mods).
Proof.
  exists (enumerate_named 0 layers).
  split; [now rewrite register_layers_fresh by constructor | ].
  split; [apply enumerate_named_snd | ].
  split; [apply enumerate_named_fst | ].
  rewrite enumerate_named_fst. apply NoDup_layer_names, seq_NoDup.
Qed.

(** X15: [__init__] validates nothing: on every list of layers, every
    threshold (inside (0,1) or not) and every pair of flags it returns
    a classifier that stores the three hyperparameters as given. *)
Theorem init_validates_nothing (self_id : nat) (layers : list nn_module)
    (t : R) (norm oracle : bool) :
  exists c,
    __init__ self_id layers t norm oracle = Ok c
    /\ prob_threshold c = t
    /\ normalize_surrogate_by_log_classes c = norm
    /\ oracle_prior_variance c = oracle.
Proof.
  apply init_total.
Qed.

Section ClassifierExtras.

Variable W : Type.
Variable layer_forward : nat -> tensor -> string -> W -> result tensor * W.
Variable layer_kl : nat -> W -> result tnum * W.
Variable layer_kl_oracle_prior_variance : nat -> W -> result tnum * W.
Variable Classifier_evaluate : tensor -> list Z -> result (tnum * tnum).
Variable layers_train : bool -> W -> W.

(** X16: the empty list of layers is accepted: the classifier built
    from it has no layer, its [forward] returns the input unchanged,
    in every mode, and its [kl()] returns 0.0, both without touching
    the state. *)
Theorem init_accepts_no_layer (self_id : nat) (t : R) (norm oracle : bool) :
  exists c,
    __init__ self_id [] t norm oracle = Ok c
    /\ bayesian_layers c = []
    /\ (forall x mode h, forward layer_forward c x mode h = (Ok x, h))
    /\ (forall h,
          kl layer_kl layer_kl_oracle_prior_variance c h = (Ok (Fin 0), h)).
Proof.
  eexists. split; [reflexivity | ]. split; [reflexivity | ].
  split; reflexivity.
Qed.

(** X17: on distinct layer objects without child modules the
    classifier iterates exactly the list it was given: [forward]
    applies the supplied layers once each, in order, and [kl()] sums
    over them. *)
Theorem init_exact_on_leaf_layers (self_id : nat) (layers : list nn_module)
    (t : R) (norm oracle : bool) :
  Forall is_leaf layers ->
  NoDup (map uid layers) ->
  ~ In self_id (map uid layers) ->
  exists c,
    __init__ self_id layers t norm oracle = Ok c
    /\ bayesian_layers c = layers
    /\ (forall x mode h,
          forward layer_forward c x mode h
          = forward_layers layer_forward layers x mode h)
    /\ (forall h,
          kl layer_kl layer_kl_oracle_prior_variance c h
          = kl_loop layer_kl layer_kl_oracle_prior_variance oracle layers
              (Fin 0) h).
Proof.
  intros Hleaf Hnd Hself.
  destruct (init_recovers_leaf_layers self_id layers t norm oracle
              Hleaf Hnd Hself) as (c & Hc & Hlayers).
  destruct (init_total self_id layers t norm oracle)
    as (c' & Hc' & _ & _ & Horacle).
  assert (c' = c) by congruence. subst c'.
  exists c. split; [exact Hc | ]. split; [exact Hlayers | ].
  split.
  - intros x mode h. unfold forward. now rewrite Hlayers.
  - intros h. unfold kl. now rewrite Hlayers, Horacle.
Qed.

(** *** [kl()] on well-behaved layers *)

Lemma kl_loop_nonnegative (oracle : bool) (layers : list nn_module)
    (h : heap W) :
  Forall (fun l => exists v,
            0 <= v
            /\ (if oracle then layer_kl_oracle_prior_variance (uid l)
                else layer_kl (uid l)) (world h) = (Ok (Fin v), world h))
         layers ->
  forall a, 0 <= a ->
  exists s, a <= s
            /\ kl_loop layer_kl layer_kl_oracle_prior_variance oracle layers
                 (Fin a) h = (Ok (Fin s), h).
Proof.
  induction 1 as [ | l layers (v & Hv & Hcall) _ IH]; intros a Ha.
  - exists a. split; [lra | reflexivity].
  - cbn [kl_loop]. unfold bind.
    assert (Hstep : layer_kl_call layer_kl layer_kl_oracle_prior_variance
                      oracle l h = (Ok (Fin v), h)).
    { unfold layer_kl_call, lift_world.
      destruct oracle; rewrite Hcall; now rewrite heap_eta. }
    rewrite Hstep. cbn [tadd].
    destruct (IH (a + v) ltac:(lra)) as (s & Hs & Hrun).
    exists s. split; [lra | exact Hrun].
Qed.

(** X18: when every layer's selected KL method returns a finite,
    non-negative value and leaves the store as it is, [kl()] returns a
    finite, non-negative number and leaves the state as it is. *)
Theorem kl_finite_nonnegative (self : classifier) (h : heap W) :
  Forall (fun l => exists v,
            0 <= v
            /\ (if oracle_prior_variance self
                then layer_kl_oracle_prior_variance (uid l)
                else layer_kl (uid l)) (world h) = (Ok (Fin v), world h))
         (bayesian_layers self) ->
  exists s, 0 <= s
            /\ kl layer_kl layer_kl_oracle_prior_variance self h
               = (Ok (Fin s), h).
Proof.
  intros Hlayers. unfold kl.
  destruct (kl_loop_nonnegative (oracle_prior_variance self)
              (bayesian_layers self) h Hlayers 0 ltac:(lra))
    as (s & Hs & Hrun).
  now exists s.
Qed.

(** *** [forward_train] with one pass *)

Lemma single_value_mean (v : tnum) : tdiv (tadd (Fin 0) v) (Fin 1) = v.
Proof.
  destruct v as [a | | | ]; cbn [tadd]; try reflexivity.
  - rewrite tdiv_fin by lra. f_equal. field.
  - simpl. destruct (Rlt_dec 1 0); [lra | reflexivity].
  - simpl. destruct (Rlt_dec 1 0); [lra | reflexivity].
Qed.

(** X19: with [n_samples = 1], the default, [forward_train] is one
    Monte Carlo pass: it returns that pass's KL and batch-mean
    surrogate unchanged (non-finite values included), raises what the
    pass raises, and leaves the state the pass leaves. *)
Theorem forward_train_single_pass (self : classifier) (x : tensor)
    (y : list Z) (h : heap W) :
  forward_train layer_forward layer_kl layer_kl_oracle_prior_variance
    self x y 1 h
  = mc_pass layer_forward layer_kl layer_kl_oracle_prior_variance self x y h.
Proof.
  unfold forward_train, mc_pass.
  change (Z.to_nat 1) with 1%nat. cbn [forward_train_loop]. unfold bind.
  destruct (forward layer_forward self x "MC" h) as [[probs | e] h1];
    [ | reflexivity].
  destruct (kl layer_kl layer_kl_oracle_prior_variance self h1)
    as [[kv | e] h2]; [ | reflexivity].
  unfold lift_result.
  destruct (surrogate probs y (prob_threshold self)
              (normalize_surrogate_by_log_classes self)) as [s | e];
    [ | reflexivity].
  unfold ret. rewrite !py_truediv_fin by lra.
  now rewrite !single_value_mean.
Qed.

(** *** [evaluate_on_loader] on the accumulated counts *)

Lemma evaluate_on_loader_run (self : classifier)
    (batches : list (tensor * list Z)) (h h' : heap W)
    (stats : list batch_stats) :
  eval_batches layer_forward Classifier_evaluate self batches
    (mkHeap false (layers_train false (world h))) = (Ok stats, h') ->
  evaluate_on_loader layer_forward Classifier_evaluate layers_train self
    (loader_of batches) h
  = bind (lift_result
            (py_truediv (tsum (map correct_count stats))
               (tsum (map total_count stats))))
         (fun ratio =>
            bind (lift_result
                    (py_truediv (tsum (map surrogate_sum stats))
                       (tsum (map total_count stats))))
                 (fun surrogate =>
                    bind (set_training layers_train (training h))
                         (fun _ => ret (tsub (Fin 1) ratio, surrogate)))) h'.
Proof.
  intros Hrun.
  unfold evaluate_on_loader, bind at 1 2 3, get_training, set_training at 1.
  rewrite evaluate_loop_collect. unfold bind at 1. rewrite Hrun.
  reflexivity.
Qed.

Lemma eval_batches_training (self : classifier)
    (batches : list (tensor * list Z)) (h h' : heap W)
    (stats : list batch_stats) :
  eval_batches layer_forward Classifier_evaluate self batches h
  = (Ok stats, h') ->
  training h' = training h.
Proof.
  intros Hrun.
  pose proof (evaluate_loop_training W layer_forward Classifier_evaluate self
                (loader_of batches) (Fin 0) (Fin 0) (Fin 0) h) as Hflag.
  rewrite evaluate_loop_collect in Hflag. unfold bind in Hflag.
  rewrite Hrun in Hflag. exact Hflag.
Qed.

(** X21: whenever the accumulated total count is 0 (no batch, or
    batches the metrics helper counts as empty), [evaluate_on_loader]
    raises [ZeroDivisionError] after the whole loader was consumed,
    and leaves the classifier in inference mode. *)
Theorem evaluate_zero_total_raises (self : classifier)
    (batches : list (tensor * list Z)) (h h' : heap W)
    (stats : list batch_stats) :
  eval_batches layer_forward Classifier_evaluate self batches
    (mkHeap false (layers_train false (world h))) = (Ok stats, h') ->
  tsum (map total_count stats) = Fin 0 ->
  evaluate_on_loader layer_forward Classifier_evaluate layers_train self
    (loader_of batches) h
  = (Raise ZeroDivisionError, h')
  /\ training h' = false.
Proof.
  intros Hrun Hzero. split.
  - rewrite (evaluate_on_loader_run self batches h h' stats Hrun).
    unfold bind, lift_result. now rewrite Hzero, py_truediv_zero.
  - now rewrite (eval_batches_training self batches _ h' stats Hrun).
Qed.

Lemma counts_accumulate (stats : list batch_stats) :
  Forall (fun s => exists c t,
            correct_count s = Fin c /\ total_count s = Fin t
            /\ 0 <= c <= t) stats ->
  forall a b, 0 <= a <= b ->
  exists C T,
    fold_left tadd (map correct_count stats) (Fin a) = Fin C
    /\ fold_left tadd (map total_count stats) (Fin b) = Fin T
    /\ 0 <= C <= T /\ b <= T
    /\ (Exists (fun s => exists t, total_count s = Fin t /\ 0 < t) stats ->
        b < T).
Proof.
  induction 1 as [ | s stats (c & t & Hc & Ht & Hct) _ IH]; intros a b Hab.
  - exists a, b. repeat split; try lra. intros Hex. inversion Hex.
  - cbn [map fold_left]. rewrite Hc, Ht. cbn [tadd].
    destruct (IH (a + c) (b + t) ltac:(lra))
      as (C & T & HC & HT & HCT & HbT & Hpos).
    exists C, T. repeat split; trivial; try lra.
    intros Hex. inversion Hex as [? ? (t' & Ht' & Hpos') | ? ? Hex']; subst.
    + rewrite Ht in Ht'. inversion Ht'; subst. lra.
    + specialize (Hpos Hex'). lra.
Qed.

(** X22: when the metrics helper returns, for every batch, finite
    counts with [0 <= correct <= total], and some batch has a positive
    total, the error rate [evaluate_on_loader] returns is a number
    between 0 and 1. *)
Theorem evaluate_error_rate_range (self : classifier)
    (batches : list (tensor * list Z)) (h h' : heap W)
    (stats : list batch_stats) :
  eval_batches layer_forward Classifier_evaluate self batches
    (mkHeap false (layers_train false (world h))) = (Ok stats, h') ->
  Forall (fun s => exists c t,
            correct_count s = Fin c /\ total_count s = Fin t
            /\ 0 <= c <= t) stats ->
  Exists (fun s => exists t, total_count s = Fin t /\ 0 < t) stats ->
  exists error surrogate,
    evaluate_on_loader layer_forward Classifier_evaluate layers_train self
      (loader_of batches) h
    = (Ok (Fin error, surrogate),
       mkHeap (training h) (layers_train (training h) (world h')))
    /\ 0 <= error <= 1.
Proof.
  intros Hrun Hcounts Hsome.
  destruct (counts_accumulate stats Hcounts 0 0 ltac:(lra))
    as (C & T & HC & HT & HCT & _ & Hpos).
  specialize (Hpos Hsome).
  rewrite (evaluate_on_loader_run self batches h h' stats Hrun).
  unfold tsum. rewrite HC, HT.
  unfold bind, lift_result, ret, set_training.
  rewrite !py_truediv_fin by lra. rewrite tdiv_fin by lra.
  cbn [tsub tneg tadd]. eexists. eexists. split; [reflexivity | ].
  assert (Hinv : 0 < / T) by (apply Rinv_0_lt_compat; lra).
  assert (Hratio : 0 <= C / T <= 1).
  { unfold Rdiv. split; [nra | ].
    apply Rmult_le_reg_r with T; [lra | ].
    rewrite Rmult_assoc, Rinv_l by lra. lra. }
  lra.
Qed.

End ClassifierExtras.

(** *** Runs of the properties above, on the counting stack *)

Lemma init_exact_on_leaf_layers_witness :
  exists c,
    __init__ 0 [MkModule 1 []; MkModule 2 []] (1 / 2) false true = Ok c
    /\ bayesian_layers c = [MkModule 1 []; MkModule 2 []]
    /\ (forall x mode h,
          forward counting_forward c x mode h
          = forward_layers counting_forward [MkModule 1 []; MkModule 2 []]
              x mode h)
    /\ (forall h,
          kl unit_kl double_kl c h
          = kl_loop unit_kl double_kl true [MkModule 1 []; MkModule 2 []]
              (Fin 0) h).
Proof.
  apply (init_exact_on_leaf_layers nat counting_forward unit_kl double_kl 0
           [MkModule 1 []; MkModule 2 []] (1 / 2) false true).
  - repeat constructor.
  - repeat constructor; simpl; lia.
  - simpl. lia.
Defined.

Lemma kl_finite_nonnegative_witness :
  exists s, 0 <= s
            /\ kl unit_kl double_kl sample_classifier (mkHeap true 0%nat)
               = (Ok (Fin s), mkHeap true 0%nat).
Proof.
  apply (kl_finite_nonnegative nat unit_kl double_kl sample_classifier
           (mkHeap true 0%nat)).
  repeat constructor. exists 1. split; [lra | reflexivity].
Defined.

Lemma evaluate_zero_total_raises_witness :
  evaluate_on_loader counting_forward all_correct keep_store
    sample_classifier (loader_of []) (mkHeap true 0%nat)
  = (Raise ZeroDivisionError, mkHeap false 0%nat)
  /\ training (mkHeap false 0%nat) = false.
Proof.
  apply (evaluate_zero_total_raises nat counting_forward all_correct
           keep_store sample_classifier [] (mkHeap true 0%nat)
           (mkHeap false 0%nat) []).
  - reflexivity.
  - reflexivity.
Defined.

Lemma evaluate_error_rate_range_witness :
  exists error surrogate,
    evaluate_on_loader counting_forward all_correct keep_store
      sample_classifier (loader_of [(sample_probs, sample_labels)])
      (mkHeap true 0%nat)
    = (Ok (Fin error, surrogate), mkHeap true 1%nat)
    /\ 0 <= error <= 1.
Proof.
  apply (evaluate_error_rate_range nat counting_forward all_correct
           keep_store sample_classifier [(sample_probs, sample_labels)]
           (mkHeap true 0%nat) (mkHeap false 1%nat)
           [mkStats (Fin 1) (Fin 1) (tensor_sum (column sample_surrogate))]).
  - unfold eval_batches. cbn [mapM]. unfold bind at 1.
    cbn [training world keep_store].
    rewrite (sample_eval_batch_run (mkHeap false 0%nat)). reflexivity.
  - repeat constructor. exists 1, 1. repeat split; lra.
  - apply Exists_cons_hd. exists 1. split; [reflexivity | lra].
Defined.

(** ** [softplus] *)

Lemma math_exp_in_range (float_max x : R) :
  exp x <= float_max -> math_exp float_max x = Ok (exp x).
Proof.
  intros H. unfold math_exp.
  destruct (Rlt_dec float_max (exp x)); [lra | reflexivity].
Qed.

Lemma exp_ge_1 (x : R) : 0 <= x -> 1 <= exp x.
Proof.
  intros [Hpos | <-].
  - rewrite <- exp_0. left. now apply exp_increasing.
  - rewrite exp_0. lra.
Qed.

Lemma softplus_in_range (float_max x : R) :
  exp x <= float_max -> softplus float_max x = Ok (ln (1 + exp x)).
Proof.
  intros H. unfold softplus. rewrite math_exp_in_range by assumption.
  cbn [rbind]. apply math_log_ok. pose proof (exp_pos x). lra.
Qed.

(** X23: [softplus(x)] raises [OverflowError] as soon as [exp(x)]
    exceeds the largest float, though its value is about [x]; below
    that it never raises (the argument of the log is at least 1) and
    returns [log(1 + exp(x))], which is not negative, not below [x],
    and at most [max(x, 0) + log(2)]. *)
Theorem softplus_value (float_max x : R) :
  (float_max < exp x -> softplus float_max x = Raise OverflowError)
  /\ (exp x <= float_max ->
      exists v,
        softplus float_max x = Ok v
        /\ v = ln (1 + exp x)
        /\ 0 <= v /\ x <= v /\ v <= Rmax x 0 + ln 2).
Proof.
  split.
  - intros Hover. unfold softplus, math_exp.
    destruct (Rlt_dec float_max (exp x)); [reflexivity | lra].
  - intros Hin. exists (ln (1 + exp x)).
    pose proof (exp_pos x) as He.
    split; [now apply softplus_in_range | ]. split; [reflexivity | ].
    split; [left; apply ln_pos; lra | ]. split.
    + rewrite <- (ln_exp x) at 1. apply ln_le_mono; lra.
    + destruct (Rle_dec 0 x) as [Hx | Hx].
      * rewrite Rmax_left by assumption.
        pose proof (exp_ge_1 x Hx) as H1.
        rewrite <- (ln_exp x) at 2. rewrite <- ln_mult by lra.
        apply ln_le_mono; lra.
      * rewrite Rmax_right by lra. rewrite Rplus_0_l.
        assert (Hlt : exp x < 1).
        { rewrite <- exp_0. apply exp_increasing. lra. }
        apply ln_le_mono; lra.
Qed.

Lemma softplus_value_witness :
  softplus (exp 709) 710 = Raise OverflowError
  /\ (exists v,
        softplus (exp 709) 40 = Ok v
        /\ v = ln (1 + exp 40)
        /\ 0 <= v /\ 40 <= v /\ v <= Rmax 40 0 + ln 2)
  /\ (exists v,
        softplus (exp 709) (- 37) = Ok v
        /\ v = ln (1 + exp (- 37))
        /\ 0 <= v /\ - 37 <= v /\ v <= Rmax (- 37) 0 + ln 2).
Proof.
  split; [ | split].
  - apply (softplus_value (exp 709) 710). apply exp_increasing. lra.
  - apply (softplus_value (exp 709) 40). left. apply exp_increasing. lra.
  - apply (softplus_value (exp 709) (- 37)). left. apply exp_increasing. lra.
Defined.

(** X24: [softplus] is non-decreasing wherever it returns: for
    [x <= y] with [exp(y)] in range, both calls return and the value
    at [x] is at most the value at [y]. *)
Theorem softplus_monotone (float_max x y : R) :
  x <= y -> exp y <= float_max ->
  exists v w,
    softplus float_max x = Ok v /\ softplus float_max y = Ok w /\ v <= w.
Proof.
  intros Hxy Hy.
  assert (Hexp : exp x <= exp y).
  { destruct Hxy as [Hlt | ->]; [left; now apply exp_increasing | lra]. }
  exists (ln (1 + exp x)), (ln (1 + exp y)).
  split; [apply softplus_in_range; lra | ].
  split; [now apply softplus_in_range | ].
  pose proof (exp_pos x). apply ln_le_mono; lra.
Qed.

Lemma softplus_monotone_witness :
  exists v w, softplus 4 0 = Ok v /\ softplus 4 1 = Ok w /\ v <= w.
Proof.
  apply (softplus_monotone 4 0 1); [lra | ].
  pose proof exp_le_3. lra.
Defined.

(** ** A loader that raises after some batches *)

Section LoaderFailure.

Variable W : Type.
Variable layer_forward : nat -> tensor -> string -> W -> result tensor * W.
Variable Classifier_evaluate : tensor -> list Z -> result (tnum * tnum).
Variable layers_train : bool -> W -> W.

Lemma evaluate_loop_then (self : classifier)
    (batches : list (tensor * list Z)) (rest : loader) : forall a b c h,
  evaluate_loop layer_forward Classifier_evaluate self
    (loader_then batches rest) a b c h
  = bind (eval_batches layer_forward Classifier_evaluate self batches)
         (fun stats =>
            evaluate_loop layer_forward Classifier_evaluate self rest
              (fold_left tadd (map correct_count stats) a)
              (fold_left tadd (map total_count stats) b)
              (fold_left tadd (map surrogate_sum stats) c)) h.
Proof.
  induction batches as [ | [x y] batches IH]; intros a b c h; [reflexivity | ].
  cbn [loader_then evaluate_loop]. unfold eval_batches. cbn [mapM].
  unfold eval_batch at 1. unfold bind.
  destruct (forward layer_forward self x "MC" h) as [[probs | e] h1];
    [ | reflexivity].
  unfold lift_result.
  destruct (Classifier_evaluate probs y) as [[correct total] | e];
    [ | reflexivity].
  destruct (surrogate probs y (prob_threshold self)
              (normalize_surrogate_by_log_classes self)) as [s | e];
    [ | reflexivity].
  unfold ret at 1. rewrite IH. unfold bind, eval_batches.
  destruct (mapM _ batches h1) as [[stats | e] h2]; reflexivity.
Qed.

(** X25: when the loader raises after yielding some batches,
    [evaluate_on_loader] raises the same exception: the batches
    yielded before have been run (their effect on the store stays),
    their statistics are lost, and the classifier is left in
    inference mode. *)
Theorem evaluate_on_loader_loader_failure (self : classifier)
    (batches : list (tensor * list Z)) (e : exn) (h h' : heap W)
    (stats : list batch_stats) :
  eval_batches layer_forward Classifier_evaluate self batches
    (mkHeap false (layers_train false (world h))) = (Ok stats, h') ->
  evaluate_on_loader layer_forward Classifier_evaluate layers_train self
    (loader_then batches (Fails e)) h
  = (Raise e, h')
  /\ training h' = false.
Proof.
  intros Hrun. split.
  - unfold evaluate_on_loader, bind at 1 2 3, get_training, set_training at 1.
    rewrite evaluate_loop_then. unfold bind at 1. rewrite Hrun.
    reflexivity.
  - pose proof (evaluate_loop_training W layer_forward Classifier_evaluate
                  self (loader_of batches) (Fin 0) (Fin 0) (Fin 0)
                  (mkHeap false (layers_train false (world h)))) as Hflag.
    rewrite evaluate_loop_collect in Hflag. unfold bind in Hflag.
    rewrite Hrun in Hflag. exact Hflag.
Qed.

End LoaderFailure.

Lemma evaluate_on_loader_loader_failure_witness :
  evaluate_on_loader counting_forward all_correct keep_store
    sample_classifier
    (loader_then [(sample_probs, sample_labels)] (Fails (OtherError 7)))
    (mkHeap true 0%nat)
  = (Raise (OtherError 7), mkHeap false 1%nat)
  /\ training (mkHeap false 1%nat) = false.
Proof.
  apply (evaluate_on_loader_loader_failure nat counting_forward all_correct
           keep_store sample_classifier [(sample_probs, sample_labels)]
           (OtherError 7) (mkHeap true 0%nat) (mkHeap false 1%nat)
           [mkStats (Fin 1) (Fin 1) (tensor_sum (column sample_surrogate))]).
  unfold eval_batches. cbn [mapM]. unfold bind at 1.
  cbn [training world keep_store].
  rewrite (sample_eval_batch_run (mkHeap false 0%nat)). reflexivity.
Defined.
